(** * Franka_AR: the joint-space dance engine of [random_points.cpp]

    A shallow embedding of the motion execution code: the quintic blend
    [quinticPath], the velocity-capped duration [getSafeMovementTime], the
    per-cycle control callback of [moveJoints], the recover-and-retry
    wrapper around one motion, and the line parser
    [readDanceMovesFromConfig].

    Numbers of type [double] are read as real numbers: every statement
    below is about the exact arithmetic the source denotes, not about
    binary64 rounding.  Comparisons are the decidable order of [R]. *)

From Stdlib Require Import Reals Lra Lia ZArith String Ascii Bool List.
From Stdlib Require PrimFloat SpecFloat FloatOps.
From Equations Require Import Equations.
Import ListNotations.

Open Scope R_scope.

(** ** [std::array<double, 7>] *)

Module Array7.

Record t : Type := mk { j0 : R; j1 : R; j2 : R; j3 : R; j4 : R; j5 : R; j6 : R }.

Definition size : nat := 7.

(** [a[i]]; the source only ever indexes with [i < 7]. *)
Definition get (a : t) (i : nat) : R :=
  match i with
  | 0%nat => j0 a | 1%nat => j1 a | 2%nat => j2 a | 3%nat => j3 a
  | 4%nat => j4 a | 5%nat => j5 a | 6%nat => j6 a
  | _ => 0
  end.

(** [a[i] = v]. *)
Definition set (a : t) (i : nat) (v : R) : t :=
  match i with
  | 0%nat => mk v (j1 a) (j2 a) (j3 a) (j4 a) (j5 a) (j6 a)
  | 1%nat => mk (j0 a) v (j2 a) (j3 a) (j4 a) (j5 a) (j6 a)
  | 2%nat => mk (j0 a) (j1 a) v (j3 a) (j4 a) (j5 a) (j6 a)
  | 3%nat => mk (j0 a) (j1 a) (j2 a) v (j4 a) (j5 a) (j6 a)
  | 4%nat => mk (j0 a) (j1 a) (j2 a) (j3 a) v (j5 a) (j6 a)
  | 5%nat => mk (j0 a) (j1 a) (j2 a) (j3 a) (j4 a) v (j6 a)
  | 6%nat => mk (j0 a) (j1 a) (j2 a) (j3 a) (j4 a) (j5 a) v
  | _ => a
  end.

(** Value initialisation [std::array<double, 7> q{}]. *)
Definition zeros : t := mk 0 0 0 0 0 0 0.

(** The index range of [for (size_t i = 0; i < 7; i++)]. *)
Definition indices : list nat := seq 0 size.

End Array7.

Definition joints : Type := Array7.t.

(** ** Division with its divisor checked

    [a / b] on doubles never traps; [checked_div] makes a zero divisor
    visible as [None], so that a statement can say a division is never
    reached with one. *)

Definition checked_div (a b : R) : option R :=
  if Req_dec_T b 0 then None else Some (a / b).

(** ** [quinticPath] *)

Definition quintic (u : R) : R := 10 * u ^ 3 - 15 * u ^ 4 + 6 * u ^ 5.

(** The slope [30 x^2 (1 - x)^2] of the quintic. *)
Definition quintic_slope (x : R) : R := 30 * (x * (1 - x)) ^ 2.

Definition quinticPath (t T : R) : R :=
  if Rle_dec t 0 then 0
  else if Rge_dec t T then 1
  else
    let normalized_t := t / T in
    10 * normalized_t ^ 3 - 15 * normalized_t ^ 4 + 6 * normalized_t ^ 5.

(** The same body with the division checked. *)
Definition quinticPath_checked (t T : R) : option R :=
  if Rle_dec t 0 then Some 0
  else if Rge_dec t T then Some 1
  else
    match checked_div t T with
    | Some normalized_t =>
        Some (10 * normalized_t ^ 3 - 15 * normalized_t ^ 4 + 6 * normalized_t ^ 5)
    | None => None
    end.

(** ** [quinticPath] in binary64

    The same body on IEEE 754 binary64 numbers, every operation rounded
    to nearest, for the places where rounding decides a statement.
    [std::pow] with a small integer exponent is given twice: the exact
    power rounded once, and repeated multiplication; [quinticPath] takes
    the one to use. *)

Module Binary64.

Import PrimFloat SpecFloat FloatOps.

(** [std::pow(x, k)] rounded once from the exact power. *)
Definition pow_once (x : float) (k : positive) : float :=
  match Prim2SF x with
  | S754_finite s m e =>
      SF2Prim
        (binary_normalize prec emax
           (if s && Z.odd (Z.pos k) then Z.neg (Pos.pow m k) else Z.pos (Pos.pow m k))
           (Z.pos k * e) false)
  | _ => x
  end.

(** [x * x * ... * x], [k] factors, each product rounded. *)
Definition pow_repeat (x : float) (k : positive) : float :=
  Pos.iter (fun p => (p * x)%float) 1%float k.

Definition quinticPath (pow : float -> positive -> float) (t T : float) : float :=
  if (t <=? 0)%float then 0%float
  else if (T <=? t)%float then 1%float
  else
    let normalized_t := (t / T)%float in
    (10 * pow normalized_t 3%positive - 15 * pow normalized_t 4%positive
     + 6 * pow normalized_t 5%positive)%float.




End Binary64.

(** ** [getSafeMovementTime] *)

Definition MAX_JOINT_VELOCITY : R := 2.

(** The three lines the function prints when it stretches the duration.
    [required_rate] is [max_delta / desired_time], the only division by
    the requested time; [None] stands for the non-finite quotient of a
    zero divisor. *)
Record SpeedWarning : Type := mkSpeedWarning {
  requested_time : R;
  joint_number : Z;
  required_rate : option R;
  rate_limit : R;
  increased_time : R
}.

(** One iteration of the scan for the largest joint displacement. *)
Definition scan_joint (q_start q_end : joints) (acc : R * Z) (i : nat) : R * Z :=
  let '(max_delta, critical_joint) := acc in
  let delta := Rabs (Array7.get q_end i - Array7.get q_start i) in
  if Rgt_dec delta max_delta then (delta, Z.of_nat i) else (max_delta, critical_joint).

Definition scan_joints (q_start q_end : joints) : R * Z :=
  fold_left (scan_joint q_start q_end) Array7.indices (0, (-1)%Z).

Definition getSafeMovementTime (q_start q_end : joints) (desired_time : R)
  : R * option SpeedWarning :=
  let '(max_delta, critical_joint) := scan_joints q_start q_end in
  let min_safe_time := max_delta / MAX_JOINT_VELOCITY in
  if Rge_dec desired_time min_safe_time then (desired_time, None)
  else
    (min_safe_time,
     Some (mkSpeedWarning desired_time (critical_joint + 1)
             (checked_div max_delta desired_time) MAX_JOINT_VELOCITY min_safe_time)).

(** The duration the caller receives. *)
Definition safe_duration_of (q_start q_end : joints) (desired_time : R) : R :=
  fst (getSafeMovementTime q_start q_end desired_time).

(** The largest displacement over the seven axes, written as the
    specification does: [max_i |target_i - start_i|]. *)
Definition displacement (q_start q_end : joints) (i : nat) : R :=
  Rabs (Array7.get q_end i - Array7.get q_start i).

Definition maxDelta (q_start q_end : joints) : R :=
  let d := displacement q_start q_end in
  Rmax (d 0%nat) (Rmax (d 1%nat) (Rmax (d 2%nat) (Rmax (d 3%nat)
    (Rmax (d 4%nat) (Rmax (d 5%nat) (d 6%nat)))))).

(** The configurations of the specification's scenarios A and B: all
    joints at zero, and the first joint one radian away. *)
Definition scenario_start : joints := Array7.zeros.
Definition scenario_target : joints := Array7.mk 1 0 0 0 0 0 0.

(** ** The control callback of [moveJoints]

    [franka::JointPositions] carries the commanded configuration and the
    [motion_finished] flag that [franka::MotionFinished] sets. *)

Record JointPositions : Type := mkJointPositions {
  q : joints;
  motion_finished : bool
}.

Definition MotionFinished (command : JointPositions) : JointPositions :=
  mkJointPositions (q command) true.

(** The body of the lambda handed to [robot.control].  [q_current],
    [q_target] and [safe_duration] are captured and never written;
    [time_total] is the one captured variable the lambda updates, so it is
    threaded through. *)
Definition control_step (q_current q_target : joints) (safe_duration : R)
    (time_total : R) (period : R) : R * JointPositions :=
  let time_passed := period in
  let time_total := time_total + time_passed in
  let factor := quinticPath time_total safe_duration in
  let q_desired :=
    fold_left
      (fun q_desired i =>
         Array7.set q_desired i
           (Array7.get q_current i
            + factor * (Array7.get q_target i - Array7.get q_current i)))
      Array7.indices Array7.zeros in
  if Rge_dec time_total (safe_duration * (101 / 100))
  then (time_total, MotionFinished (mkJointPositions q_desired false))
  else (time_total, mkJointPositions q_desired false).

(** [robot.control(callback)]: the runtime calls the callback once per
    cycle with the length of the previous cycle, sends the command, and
    returns when a command carries [motion_finished].  [periods] are the
    cycles the runtime is able to run; when they are used up before the
    motion finished the runtime has raised [franka::Exception].  The
    result is the commands sent, in order, and whether control returned
    normally. *)
Fixpoint control (callback : R -> R -> R * JointPositions) (time_total : R)
    (periods : list R) : list JointPositions * bool :=
  match periods with
  | [] => ([], false)
  | period :: rest =>
      let '(time_total', command) := callback time_total period in
      if motion_finished command then ([command], true)
      else
        let '(sent, ok) := control callback time_total' rest in
        (command :: sent, ok)
  end.

(** ** The robot as [moveJoints] sees it *)

(** What the hardware does during one motion attempt: [readOnce] yields
    the joint state or raises, the control loop runs [cycles], and the
    wall clock measures [wall_clock] seconds around it. *)
Record Attempt : Type := mkAttempt {
  read_once : option joints;
  cycles : list R;
  wall_clock : R
}.

(** The behaviour of the robot over a run: the [n]-th motion attempt and
    whether the [n]-th [automaticErrorRecovery] succeeds. *)
Record Robot : Type := mkRobot {
  attempt : nat -> Attempt;
  recovery : nat -> bool
}.

Inductive Event : Type :=
| EvReadOnce (state_q : joints)
| EvSafeDuration (desired safe : R) (warning : option SpeedWarning)
| EvCommand (command : JointPositions)
| EvMoveCompleted (desired actual : R)
| EvSleepMs (ms : Z)
| EvException
| EvRetrying
| EvRecovery (succeeded : bool).

(** The part of the world [moveJoints] changes: how many attempts and
    recoveries the robot has served, and everything done so far. *)
Record World : Type := mkWorld {
  attempts_made : nat;
  recoveries_made : nat;
  log : list Event
}.

Definition emit (w : World) (events : list Event) : World :=
  mkWorld (attempts_made w) (recoveries_made w) (log w ++ events).

(** [recoverRobot]: the exception of a failed recovery is caught here and
    answered with a five second sleep. *)
Definition recoverRobot (robot : Robot) (w : World) : World :=
  let succeeded := recovery robot (recoveries_made w) in
  let w := mkWorld (attempts_made w) (S (recoveries_made w)) (log w) in
  if succeeded then emit w [EvRecovery true]
  else emit w [EvRecovery false; EvSleepMs 5000].

(** The [try] block of [moveJoints]: [None] is a [franka::Exception]
    leaving the block. *)
Definition try_motion (robot : Robot) (w : World) (q_target : joints)
    (desired_duration : R) : option R * World :=
  let a := attempt robot (attempts_made w) in
  let w := mkWorld (S (attempts_made w)) (recoveries_made w) (log w) in
  match read_once a with
  | None => (None, w)
  | Some q_current =>
      let w := emit w [EvReadOnce q_current] in
      let '(safe_duration, warning) :=
        getSafeMovementTime q_current q_target desired_duration in
      let w := emit w [EvSafeDuration desired_duration safe_duration warning] in
      let time_total := 0 in
      let '(sent, ok) :=
        control (control_step q_current q_target safe_duration) time_total (cycles a) in
      let w := emit w (map EvCommand sent) in
      if ok then
        let actual_duration := wall_clock a in
        let w := emit w [EvMoveCompleted desired_duration actual_duration; EvSleepMs 100] in
        (Some actual_duration, w)
      else (None, w)
  end.

(** [moveJoints], with the [catch] branch: recover and call again with
    [recover_on_error = false], or give up with [-1.0]. *)
Equations moveJoints (robot : Robot) (w : World) (q_target : joints)
    (desired_duration : R) (recover_on_error : bool) : R * World
    by wf (if recover_on_error then 1%nat else 0%nat) lt :=
  moveJoints robot w q_target desired_duration recover_on_error
    with try_motion robot w q_target desired_duration => {
    | (Some actual_duration, w1) := (actual_duration, w1);
    | (None, w1) with recover_on_error => {
      | true :=
          moveJoints robot (recoverRobot robot (emit w1 [EvException; EvRetrying]))
            q_target desired_duration false;
      | false := (-1, emit w1 [EvException]) } }.

(** A caller that omits the last argument gets [recover_on_error = true]. *)
Definition moveJoints_default (robot : Robot) (w : World) (q_target : joints)
    (desired_duration : R) : R * World :=
  moveJoints robot w q_target desired_duration true.

(** ** [readDanceMovesFromConfig] *)

Record DanceMove : Type := mkDanceMove {
  move_index : Z;
  move_joints : joints;
  move_time : R
}.

(** [std::istringstream]: the characters not yet read and the fail bit.
    Once the fail bit is set every later extraction fails without
    reading. *)
Record istringstream : Type := mkStream {
  unread : string;
  failbit : bool
}.

(** [std::isspace] in the C locale. *)
Definition isspace (c : ascii) : bool :=
  let n := nat_of_ascii c in
  ((n =? 32) || ((9 <=? n) && (n <=? 13)))%nat.

(** The white space [operator>>] skips before a number. *)
Fixpoint skipws (s : string) : string :=
  match s with
  | String c rest => if isspace c then skipws rest else s
  | EmptyString => s
  end.

(** The result of the numeric conversion behind [operator>>]: a value and
    the characters left, or a failure together with the value the
    operator stores in its target on failure. *)
Inductive Extraction (A : Type) : Type :=
| Converted (value : A) (rest : string)
| Rejected (stored : A).
Arguments Converted {A} value rest.
Arguments Rejected {A} stored.

Inductive Message : Type :=
| ErrMoveIndex (line : string)
| ErrJoint (i : nat) (line : string)
| ErrMoveTime (line : string)
| Loaded (index : Z) (time : R).

(** [line.empty()] and [line[0] == '#']. *)
Definition empty (line : string) : bool :=
  match line with
  | EmptyString => true
  | String _ _ => false
  end.

Definition starts_with_hash (line : string) : bool :=
  match line with
  | String c _ => Ascii.eqb c "#"
  | EmptyString => false
  end.

Inductive ConfigError : Type :=
| CannotOpen
| NoValidMoves.

Section Reader.

(** The conversions of the standard library's [num_get] facet for [int]
    and [double], applied to the input that follows the skipped white
    space.  They belong to the C++ runtime, not to this program. *)
Variable num_get_int : string -> Extraction Z.
Variable num_get_double : string -> Extraction R.

(** [iss >> target] for a target holding [old].  With the fail bit set
    nothing is read.  Otherwise white space is skipped; at the end of
    the input the extraction fails and leaves the target alone; else the
    conversion decides, storing its value either way. *)
Definition extract {A : Type} (num_get : string -> Extraction A)
    (iss : istringstream) (old : A) : A * istringstream :=
  if failbit iss then (old, iss)
  else
    let input := skipws (unread iss) in
    if empty input then (old, mkStream input true)
    else
      match num_get input with
      | Converted value rest => (value, mkStream rest false)
      | Rejected stored => (stored, mkStream input true)
      end.

Definition extract_int : istringstream -> Z -> Z * istringstream :=
  extract num_get_int.

Definition extract_double : istringstream -> R -> R * istringstream :=
  extract num_get_double.

(** One iteration of the loop over the seven joint fields.  Its
    [continue] only moves on to the next joint. *)
Definition read_joint (line : string)
    (st : istringstream * DanceMove * list Message) (i : nat)
  : istringstream * DanceMove * list Message :=
  let '(iss, move, cerr) := st in
  let '(value, iss) := extract_double iss (Array7.get (move_joints move) i) in
  let move :=
    mkDanceMove (move_index move) (Array7.set (move_joints move) i value)
      (move_time move) in
  if failbit iss then (iss, move, cerr ++ [ErrJoint i line])
  else (iss, move, cerr).

(** One iteration of the [while (std::getline(...))] loop.  [uninit] is
    whatever the freshly declared [DanceMove move;] holds. *)
Definition read_line (uninit : DanceMove)
    (acc : list DanceMove * list Message) (line : string)
  : list DanceMove * list Message :=
  let '(dance_moves, out) := acc in
  if empty line || starts_with_hash line then acc
  else
    let iss := mkStream line false in
    let move := uninit in
    let '(index, iss) := extract_int iss (move_index move) in
    let move := mkDanceMove index (move_joints move) (move_time move) in
    if failbit iss then (dance_moves, out ++ [ErrMoveIndex line])
    else
      let '(iss, move, out) :=
        fold_left (read_joint line) Array7.indices (iss, move, out) in
      let '(time, iss) := extract_double iss (move_time move) in
      let move := mkDanceMove (move_index move) (move_joints move) time in
      if failbit iss then (dance_moves, out ++ [ErrMoveTime line])
      else
        (dance_moves ++ [move],
         out ++ [Loaded (move_index move) (move_time move)]).

(** [file] is [None] when the file cannot be opened, else its lines. *)
Definition readDanceMovesFromConfig (uninit : DanceMove)
    (file : option (list string))
  : (ConfigError + list DanceMove) * list Message :=
  match file with
  | None => (inl CannotOpen, [])
  | Some lines =>
      let '(dance_moves, out) := fold_left (read_line uninit) lines ([], []) in
      match dance_moves with
      | [] => (inl NoValidMoves, out)
      | _ => (inr dance_moves, out)
      end
  end.

(** *** A record as nine extractions

    The index, the seven joint values and the move time each convert,
    one after the other, from what the one before left unread. *)

Definition field {A : Type} (num_get : string -> Extraction A) (s : string)
  : option (A * string) :=
  let input := skipws s in
  if empty input then None
  else
    match num_get input with
    | Converted value rest => Some (value, rest)
    | Rejected _ => None
    end.

Definition field_int : string -> option (Z * string) := field num_get_int.

Definition field_double : string -> option (R * string) := field num_get_double.

Definition parse_record (line : string) : option DanceMove :=
  match field_int line with None => None | Some (index, s) =>
  match field_double s with None => None | Some (q1, s) =>
  match field_double s with None => None | Some (q2, s) =>
  match field_double s with None => None | Some (q3, s) =>
  match field_double s with None => None | Some (q4, s) =>
  match field_double s with None => None | Some (q5, s) =>
  match field_double s with None => None | Some (q6, s) =>
  match field_double s with None => None | Some (q7, s) =>
  match field_double s with None => None | Some (time, _) =>
    Some (mkDanceMove index (Array7.mk q1 q2 q3 q4 q5 q6 q7) time)
  end end end end end end end end end.

(** The record of a line as a list: one move or none. *)
Definition record_of_line (line : string) : list DanceMove :=
  match parse_record line with
  | Some move => [move]
  | None => []
  end.

End Reader.

(** *** A decimal instance of the conversions

    Plain decimal notation, enough to run the reader on example lines:
    an optional sign and digits for [int] (failing outside the 32-bit
    range), and an optional sign, digits and an optional fraction for
    [double]. *)

Definition digit_of (c : ascii) : option Z :=
  let n := nat_of_ascii c in
  if ((48 <=? n) && (n <=? 57))%nat then Some (Z.of_nat (n - 48)) else None.

(** Reads digits, returning their value, how many there were and the
    rest. *)
Fixpoint take_digits (s : string) (value : Z) (count : nat) : Z * nat * string :=
  match s with
  | String c rest =>
      match digit_of c with
      | Some d => take_digits rest (10 * value + d)%Z (S count)
      | None => (value, count, s)
      end
  | EmptyString => (value, count, s)
  end.

Definition take_sign (s : string) : bool * string :=
  match s with
  | String "-" rest => (true, rest)
  | String "+" rest => (false, rest)
  | _ => (false, s)
  end.

Definition INT_MAX : Z := 2147483647.
Definition INT_MIN : Z := -2147483648.

Definition decimal_int (s : string) : Extraction Z :=
  let '(negative, body) := take_sign s in
  let '(magnitude, count, rest) := take_digits body 0%Z 0%nat in
  match count with
  | O => Rejected 0%Z
  | S _ =>
      let value := if negative then (- magnitude)%Z else magnitude in
      if (INT_MAX <? value)%Z then Rejected INT_MAX
      else if (value <? INT_MIN)%Z then Rejected INT_MIN
      else Converted value rest
  end.

Definition decimal_double (s : string) : Extraction R :=
  let '(negative, body) := take_sign s in
  let '(whole, whole_count, after_whole) := take_digits body 0%Z 0%nat in
  let '(fraction, fraction_count, rest) :=
    match after_whole with
    | String "." after_point => take_digits after_point 0%Z 0%nat
    | _ => (0%Z, 0%nat, after_whole)
    end in
  match (whole_count + fraction_count)%nat with
  | O => Rejected 0
  | S _ =>
      let magnitude := IZR whole + IZR fraction / 10 ^ fraction_count in
      Converted (if negative then - magnitude else magnitude) rest
  end.

(** A configuration for the examples: a comment, a record whose fourth
    joint is not a number, an empty line and a well-formed record; and
    the content of a [DanceMove] before anything is stored in it. *)
Definition example_config : list string :=
  ["# dance poses"; "1 0 0 0 x 0 0 0 2"; ""; "2 1 0 0 0 0 0 0 3.5"]%string.

Definition stale_move : DanceMove := mkDanceMove 7 scenario_target 9.

(** *** The line format in the specification's words

    [<moveIndex:int> <q1> ... <q7> <moveTime:float>]: nine fields
    separated by white space, each of them a number as a whole. *)

(** The white-space separated fields of a line; [current] is the field
    being collected. *)
Fixpoint split_fields (s : string) (current : string) : list string :=
  match s with
  | EmptyString => if empty current then [] else [current]
  | String c rest =>
      if isspace c then
        if empty current then split_fields rest EmptyString
        else current :: split_fields rest EmptyString
      else split_fields rest (current ++ String c EmptyString)
  end.

(** A field that is a number from its first to its last character. *)
Definition whole {A : Type} (num_get : string -> Extraction A) (text : string)
  : option A :=
  match num_get text with
  | Converted value EmptyString => Some value
  | _ => None
  end.

Definition spec_record (num_get_int : string -> Extraction Z)
    (num_get_double : string -> Extraction R) (line : string) : option DanceMove :=
  match split_fields line EmptyString with
  | [f0; f1; f2; f3; f4; f5; f6; f7; f8] =>
      match whole num_get_int f0,
            whole num_get_double f1, whole num_get_double f2,
            whole num_get_double f3, whole num_get_double f4,
            whole num_get_double f5, whole num_get_double f6,
            whole num_get_double f7, whole num_get_double f8 with
      | Some index, Some q1, Some q2, Some q3, Some q4, Some q5, Some q6, Some q7,
        Some time =>
          Some (mkDanceMove index (Array7.mk q1 q2 q3 q4 q5 q6 q7) time)
      | _, _, _, _, _, _, _, _, _ => None
      end
  | _ => None
  end.

(** ** What the specification calls rejecting a move

    A move is rejected as invalid when it is reported as failed and no
    safe duration was ever computed for it. *)

Definition computes_safe_duration (e : Event) : bool :=
  match e with
  | EvSafeDuration _ _ _ => true
  | _ => false
  end.

Definition rejected_as_invalid (result : R * World) : Prop :=
  fst result < 0 /\ existsb computes_safe_duration (log (snd result)) = false.

Definition initial_world : World := mkWorld 0 0 [].

(** Two robots for the examples: one whose [readOnce] always raises, and
    one that stands at [scenario_start] and runs four control cycles of
    0, 0.25, 0.25 and 0.25 seconds, measured as 0.75 seconds. *)
Definition faulty_robot : Robot :=
  mkRobot (fun _ => mkAttempt None [] 0) (fun _ => true).

Definition steady_robot : Robot :=
  mkRobot (fun _ => mkAttempt (Some scenario_start) [0; 1 / 4; 1 / 4; 1 / 4] (3 / 4))
    (fun _ => true).

(** Elapsed time after the first [n] control cycles of a move, and the
    same counted from an accumulated [time_total]. *)
Definition elapsed_from (time_total : R) (periods : list R) (n : nat) : R :=
  fold_left Rplus (firstn n periods) time_total.

Definition elapsed_after (periods : list R) (n : nat) : R :=
  elapsed_from 0 periods n.

(** The completion threshold [safeDuration x 1.01]. *)
Definition finish_time (safe_duration : R) : R := safe_duration * (101 / 100).

(** The command the specification asks for at progress [fraction]. *)
Definition interpolate (q_start q_target : joints) (fraction : R) (i : nat) : R :=
  Array7.get q_start i + fraction * (Array7.get q_target i - Array7.get q_start i).

(** ** [main]: the dance over the move sequence *)

(** One line of the table [main] prints: the pose left, the pose aimed
    at, the requested time, and the measured time or [None] for
    [FAILED]. *)
Record Row : Type := mkRow {
  from_move : Z;
  to_move : Z;
  row_desired : R;
  row_actual : option R
}.

(** [dance_moves[i]]; the source only indexes below [dance_moves.size()]. *)
Definition move_at (dance_moves : list DanceMove) (i : nat) : DanceMove :=
  nth i dance_moves (mkDanceMove 0 Array7.zeros 0).

(** The body of [for (size_t i = 0; i < dance_moves.size(); i++)]. *)
Definition dance_step (robot : Robot) (dance_moves : list DanceMove)
    (st : World * list Row) (i : nat) : World * list Row :=
  let '(w, table) := st in
  let next_index := ((i + 1) mod length dance_moves)%nat in
  let from_move := move_index (move_at dance_moves i) in
  let to_move := move_index (move_at dance_moves next_index) in
  let desired_time := move_time (move_at dance_moves next_index) in
  let '(actual_time, w) :=
    moveJoints_default robot w (move_joints (move_at dance_moves next_index))
      desired_time in
  let table :=
    table ++ [mkRow from_move to_move desired_time
                (if Rge_dec actual_time 0 then Some actual_time else None)] in
  if Rlt_dec actual_time 0 then (recoverRobot robot w, table) else (w, table).

(** One pass of the [for] loop over the whole sequence. *)
Definition dance_cycle (robot : Robot) (dance_moves : list DanceMove)
    (st : World * list Row) : World * list Row :=
  fold_left (dance_step robot dance_moves) (seq 0 (length dance_moves)) st.

(** [response != 'y' && response != 'Y']. *)
Definition declines (response : ascii) : bool :=
  negb (Ascii.eqb response "y") && negb (Ascii.eqb response "Y").

(** The [while (repeat)] loop.  [answers n] is the character the user
    enters after cycle [n]; [fuel] bounds the number of cycles run, and
    [None] means the user had not declined within that bound. *)
Fixpoint dance_loop (fuel : nat) (robot : Robot) (dance_moves : list DanceMove)
    (answers : nat -> ascii) (cycle : nat) (st : World * list Row)
  : option (World * list Row) :=
  match fuel with
  | O => None
  | S fuel =>
      let st := dance_cycle robot dance_moves st in
      let response := answers cycle in
      if declines response then Some st
      else dance_loop fuel robot dance_moves answers (S cycle) st
  end.

Section Main.

Variable num_get_int : string -> Extraction Z.
Variable num_get_double : string -> Extraction R.
Variable uninit : DanceMove.

(** [main].  [connection] is [None] when connecting to the robot, loading
    its model or setting the collision behaviour raises; the result is
    the exit code with the final world and table. *)
Definition main (argc : nat) (connection : option Robot)
    (file : option (list string)) (answers : nat -> ascii) (fuel : nat)
  : option (Z * World * list Row) :=
  if negb (argc =? 3)%nat then Some (1%Z, initial_world, [])
  else
    match connection with
    | None => Some (1%Z, initial_world, [])
    | Some robot =>
        match fst (readDanceMovesFromConfig num_get_int num_get_double uninit file) with
        | inl _ => Some (1%Z, initial_world, [])
        | inr dance_moves =>
            let '(initial_move_time, w) :=
              moveJoints_default robot initial_world
                (move_joints (move_at dance_moves 0))
                (move_time (move_at dance_moves 0)) in
            if Rlt_dec initial_move_time 0 then Some (1%Z, w, [])
            else
              match dance_loop fuel robot dance_moves answers 0 (w, []) with
              | Some (w, table) => Some (0%Z, w, table)
              | None => None
              end
        end
    end.

End Main.

(** The targets one dance cycle aims at, in order: the sequence rotated
    by one. *)
Definition cycle_targets (dance_moves : list DanceMove) : list DanceMove :=
  match dance_moves with
  | [] => []
  | first :: rest => rest ++ [first]
  end.

(** What is left of a line after [n] more joint values have converted,
    if they all do. *)
Fixpoint joints_rest (num_get_double : string -> Extraction R) (n : nat)
    (s : string) : option string :=
  match n with
  | O => Some s
  | S n =>
      match field_double num_get_double s with
      | Some (_, rest) => joints_rest num_get_double n rest
      | None => None
      end
  end.

(** [line.empty() || line[0] == '#']. *)
Definition skipped (line : string) : bool :=
  empty line || starts_with_hash line.

(** A two-pose dance for the examples. *)
Definition example_moves : list DanceMove :=
  [mkDanceMove 1 scenario_start 1; mkDanceMove 2 scenario_target 1].

(** A row printed as [FAILED]. *)
Definition row_failed (row : Row) : bool :=
  match row_actual row with
  | None => true
  | Some _ => false
  end.

(** * Properties *)

(** ** Deciding the order of [R] in proofs *)

Ltac decide_R :=
  repeat match goal with
    | |- context [Rle_dec ?a ?b] => destruct (Rle_dec a b); try lra
    | |- context [Rge_dec ?a ?b] => destruct (Rge_dec a b); try lra
    | |- context [Rgt_dec ?a ?b] => destruct (Rgt_dec a b); try lra
    | |- context [Req_dec_T ?a ?b] => destruct (Req_dec_T a b); try lra
    end.

Lemma checked_div_nonzero (a b : R) : b <> 0 -> checked_div a b = Some (a / b).
Proof. intros Hb. unfold checked_div. destruct (Req_dec_T b 0); [contradiction | reflexivity]. Qed.

Lemma checked_div_zero (a : R) : checked_div a 0 = None.
Proof. unfold checked_div. destruct (Req_dec_T 0 0); [reflexivity | lra]. Qed.

(** ** The quintic polynomial *)

Lemma quintic_0 : quintic 0 = 0.
Proof. unfold quintic. ring. Qed.

Lemma quintic_1 : quintic 1 = 1.
Proof. unfold quintic. ring. Qed.


Lemma quintic_slope_nonneg (x : R) : 0 <= quintic_slope x.
Proof. unfold quintic_slope. pose proof (pow2_ge_0 (x * (1 - x))). lra. Qed.

(** The increment of the quintic is its slope averaged by Boole's rule,
    which is exact for a polynomial of this degree. *)
Lemma quintic_increment (u v : R) :
  quintic v - quintic u =
  (v - u) / 90 *
  (7 * quintic_slope u + 32 * quintic_slope ((3 * u + v) / 4)
   + 12 * quintic_slope ((u + v) / 2) + 32 * quintic_slope ((u + 3 * v) / 4)
   + 7 * quintic_slope v).
Proof. unfold quintic, quintic_slope. field. Qed.

Lemma quintic_monotone (u v : R) : u <= v -> quintic u <= quintic v.
Proof.
  intros Huv.
  pose proof (quintic_increment u v) as Hinc.
  pose proof (quintic_slope_nonneg u).
  pose proof (quintic_slope_nonneg v).
  pose proof (quintic_slope_nonneg ((3 * u + v) / 4)).
  pose proof (quintic_slope_nonneg ((u + v) / 2)).
  pose proof (quintic_slope_nonneg ((u + 3 * v) / 4)).
  set (avg := 7 * quintic_slope u + 32 * quintic_slope ((3 * u + v) / 4)
              + 12 * quintic_slope ((u + v) / 2)
              + 32 * quintic_slope ((u + 3 * v) / 4) + 7 * quintic_slope v) in *.
  assert (0 <= avg) by (unfold avg; lra).
  assert (0 <= (v - u) / 90 * avg) by (apply Rmult_le_pos; lra).
  lra.
Qed.

Lemma quintic_range (u : R) : 0 <= u <= 1 -> 0 <= quintic u <= 1.
Proof.
  intros [H0 H1].
  pose proof (quintic_monotone 0 u H0). pose proof (quintic_monotone u 1 H1).
  rewrite quintic_0 in *. rewrite quintic_1 in *. lra.
Qed.

(** ** [quinticPath] by cases *)

Lemma quinticPath_before (t T : R) : t <= 0 -> quinticPath t T = 0.
Proof. intros H. unfold quinticPath. decide_R; try reflexivity. Qed.

Lemma quinticPath_after (t T : R) : 0 < t -> T <= t -> quinticPath t T = 1.
Proof. intros H0 HT. unfold quinticPath. decide_R; try reflexivity. Qed.

Lemma quinticPath_inside (t T : R) :
  0 < t -> t < T -> quinticPath t T = quintic (t / T).
Proof. intros H0 HT. unfold quinticPath, quintic. decide_R; try reflexivity. Qed.

Lemma ratio_inside (t T : R) : 0 < t -> t < T -> 0 < t / T < 1.
Proof.
  intros H0 HT. assert (HTpos : 0 < T) by lra.
  split.
  - apply Rdiv_lt_0_compat; assumption.
  - apply (Rmult_lt_reg_r T); [assumption |].
    unfold Rdiv. rewrite Rmult_assoc, Rinv_l by lra. lra.
Qed.

Lemma quinticPath_range (t T : R) : 0 <= quinticPath t T <= 1.
Proof.
  destruct (Rle_dec t 0) as [H0 | H0].
  - rewrite quinticPath_before by assumption. lra.
  - destruct (Rle_dec T t) as [HT | HT].
    + rewrite quinticPath_after by lra. lra.
    + rewrite quinticPath_inside by lra.
      apply quintic_range. pose proof (ratio_inside t T). lra.
Qed.

Lemma quinticPath_monotone (T t1 t2 : R) :
  t1 <= t2 -> quinticPath t1 T <= quinticPath t2 T.
Proof.
  intros H12.
  destruct (Rle_dec t1 0) as [H1 | H1].
  - rewrite (quinticPath_before t1) by assumption. apply quinticPath_range.
  - destruct (Rle_dec T t2) as [H2 | H2].
    + rewrite (quinticPath_after t2) by lra. apply quinticPath_range.
    + rewrite !quinticPath_inside by lra.
      apply quintic_monotone.
      assert (0 < / T) by (apply Rinv_0_lt_compat; lra).
      unfold Rdiv. apply Rmult_le_compat_r; lra.
Qed.

(** C6. The profile is 0 for [t <= 0]; past that it is 1 for [t >= T];
    otherwise, with [u = t / T], it is [10u^3 - 15u^4 + 6u^5].  The cases
    are taken in this order, as the source tests them; for [T > 0] the
    second needs no mention of the first, and [s(0,T) = 0], [s(T,T) = 1]. *)
Theorem quinticPath_piecewise (t T : R) :
  (t <= 0 -> quinticPath t T = 0) /\
  (0 < t -> t >= T -> quinticPath t T = 1) /\
  (0 < T -> t >= T -> quinticPath t T = 1) /\
  (0 < t -> t < T ->
   quinticPath t T = 10 * (t / T) ^ 3 - 15 * (t / T) ^ 4 + 6 * (t / T) ^ 5) /\
  (0 < T -> quinticPath 0 T = 0 /\ quinticPath T T = 1).
Proof.
  repeat split; intros.
  - apply quinticPath_before; assumption.
  - apply quinticPath_after; lra.
  - apply quinticPath_after; lra.
  - rewrite quinticPath_inside by assumption. reflexivity.
  - apply quinticPath_before; lra.
  - apply quinticPath_after; lra.
Qed.

Lemma quinticPath_piecewise_witness :
  (-1 <= 0 /\ quinticPath (-1) 2 = 0) /\
  (0 < 3 /\ 3 >= 2 /\ quinticPath 3 2 = 1) /\
  (0 < 1 /\ 1 < 2 /\ quinticPath 1 2 = 1 / 2) /\
  (0 < 2 /\ quinticPath 0 2 = 0 /\ quinticPath 2 2 = 1).
Proof.
  repeat split; try lra.
  - apply (proj1 (quinticPath_piecewise (-1) 2)). lra.
  - apply (proj1 (proj2 (quinticPath_piecewise 3 2))); lra.
  - rewrite (proj1 (proj2 (proj2 (proj2 (quinticPath_piecewise 1 2))))) by lra. field.
  - apply (proj2 (proj2 (proj2 (proj2 (quinticPath_piecewise 0 2))))). lra.
  - apply (proj2 (proj2 (proj2 (proj2 (quinticPath_piecewise 2 2))))). lra.
Defined.





(** C10. [quinticPath] yields a value for every pair of reals and never
    divides by zero: with the division checked it still returns, and
    returns the same value; the first two tests answer 0 and 1 without
    dividing, and whenever both tests fail [0 < t < T], so the divisor [T]
    is positive.  For [T <= 0] the answer is one of the two constants. *)
Theorem quinticPath_never_divides_by_zero (t T : R) :
  quinticPath_checked t T = Some (quinticPath t T) /\
  (t <= 0 -> quinticPath_checked t T = Some 0) /\
  (0 < t -> t >= T -> quinticPath_checked t T = Some 1) /\
  (~ t <= 0 -> ~ t >= T ->
   0 < t < T /\ 0 < T /\ checked_div t T = Some (t / T)) /\
  (T <= 0 ->
   quinticPath_checked t T = Some (if Rle_dec t 0 then 0 else 1)).
Proof.
  repeat split.
  - unfold quinticPath_checked, quinticPath.
    destruct (Rle_dec t 0); [reflexivity |].
    destruct (Rge_dec t T); [reflexivity |].
    rewrite checked_div_nonzero by lra. reflexivity.
  - intros H. unfold quinticPath_checked. decide_R; try reflexivity.
  - intros H0 HT. unfold quinticPath_checked. decide_R; try reflexivity.
  - lra.
  - lra.
  - lra.
  - apply checked_div_nonzero. lra.
  - intros HT. unfold quinticPath_checked.
    destruct (Rle_dec t 0); [reflexivity |].
    destruct (Rge_dec t T); [reflexivity | lra].
Qed.

Lemma quinticPath_never_divides_by_zero_witness :
  (0 < 1 /\ 1 >= 0 /\ quinticPath_checked 1 0 = Some 1) /\
  (-1 <= 0 /\ quinticPath_checked (-1) 0 = Some 0) /\
  (~ 1 <= 0 /\ ~ 1 >= 2 /\ checked_div 1 2 = Some (1 / 2)) /\
  (-3 <= 0 /\ quinticPath_checked 2 (-3) = Some (if Rle_dec 2 0 then 0 else 1)).
Proof.
  repeat split; try lra.
  - apply (proj1 (proj2 (proj2 (quinticPath_never_divides_by_zero 1 0)))); lra.
  - apply (proj1 (proj2 (quinticPath_never_divides_by_zero (-1) 0))); lra.
  - apply (proj1 (proj2 (proj2 (proj2 (quinticPath_never_divides_by_zero 1 2))))); lra.
  - apply (proj2 (proj2 (proj2 (proj2 (quinticPath_never_divides_by_zero 2 (-3)))))); lra.
Defined.

(** ** [getSafeMovementTime] *)

Lemma displacement_nonneg (q_start q_end : joints) (i : nat) :
  0 <= displacement q_start q_end i.
Proof. unfold displacement. apply Rabs_pos. Qed.

Lemma scan_joint_max (q_start q_end : joints) (acc : R * Z) (i : nat) :
  fst (scan_joint q_start q_end acc i) = Rmax (fst acc) (displacement q_start q_end i).
Proof.
  destruct acc as [max_delta critical_joint].
  unfold scan_joint, displacement, Rmax. simpl.
  destruct (Rgt_dec _ _); destruct (Rle_dec _ _); simpl; lra.
Qed.

Lemma scan_fold_max (q_start q_end : joints) (l : list nat) (acc : R * Z) :
  fst (fold_left (scan_joint q_start q_end) l acc) =
  fold_left (fun m i => Rmax m (displacement q_start q_end i)) l (fst acc).
Proof.
  revert acc. induction l as [| i l IH]; intros acc; simpl; [reflexivity |].
  rewrite IH, scan_joint_max. reflexivity.
Qed.

Lemma scan_joints_maxDelta (q_start q_end : joints) :
  fst (scan_joints q_start q_end) = maxDelta q_start q_end.
Proof.
  unfold scan_joints. rewrite scan_fold_max. unfold maxDelta. simpl.
  rewrite (Rmax_right 0) by apply displacement_nonneg.
  rewrite !Rmax_assoc. reflexivity.
Qed.

Lemma maxDelta_bound (q_start q_end : joints) (i : nat) :
  (i < 7)%nat -> displacement q_start q_end i <= maxDelta q_start q_end.
Proof.
  intros Hi. unfold maxDelta.
  do 7 (destruct i as [| i]; [unfold Rmax; repeat destruct (Rle_dec _ _); lra |]).
  lia.
Qed.

Lemma maxDelta_attained (q_start q_end : joints) :
  exists i, (i < 7)%nat /\ maxDelta q_start q_end = displacement q_start q_end i.
Proof.
  unfold maxDelta.
  repeat match goal with
    | |- context [Rmax ?a ?b] =>
        destruct (Rmax_case a b (fun m => m = a \/ m = b)) as [-> | ->];
        [left; reflexivity | right; reflexivity | |]
    end.
  all: eexists; (split; [| reflexivity]); lia.
Qed.

Lemma maxDelta_nonneg (q_start q_end : joints) : 0 <= maxDelta q_start q_end.
Proof.
  assert (H7 : (0 < 7)%nat) by lia.
  pose proof (maxDelta_bound q_start q_end 0 H7).
  pose proof (displacement_nonneg q_start q_end 0).
  lra.
Qed.

Lemma maxDelta_pos (q_start q_end : joints) (i : nat) :
  (i < 7)%nat -> Array7.get q_start i <> Array7.get q_end i ->
  0 < maxDelta q_start q_end.
Proof.
  intros Hi Hne.
  pose proof (maxDelta_bound q_start q_end i Hi) as Hb.
  assert (0 < displacement q_start q_end i).
  { unfold displacement. apply Rabs_pos_lt. lra. }
  lra.
Qed.

Lemma getSafeMovementTime_unfold (q_start q_end : joints) (desired_time : R) :
  exists critical_joint,
    getSafeMovementTime q_start q_end desired_time =
    let max_delta := maxDelta q_start q_end in
    let min_safe_time := max_delta / MAX_JOINT_VELOCITY in
    if Rge_dec desired_time min_safe_time then (desired_time, None)
    else
      (min_safe_time,
       Some (mkSpeedWarning desired_time (critical_joint + 1)
               (checked_div max_delta desired_time) MAX_JOINT_VELOCITY min_safe_time)).
Proof.
  unfold getSafeMovementTime.
  pose proof (scan_joints_maxDelta q_start q_end) as Hmax.
  destruct (scan_joints q_start q_end) as [max_delta critical_joint].
  simpl in Hmax. subst max_delta. exists critical_joint. reflexivity.
Qed.

Lemma safe_duration_of_max (q_start q_end : joints) (desired_time : R) :
  safe_duration_of q_start q_end desired_time =
  Rmax desired_time (maxDelta q_start q_end / MAX_JOINT_VELOCITY).
Proof.
  unfold safe_duration_of.
  destruct (getSafeMovementTime_unfold q_start q_end desired_time) as [c ->].
  cbv zeta. unfold Rmax.
  destruct (Rge_dec _ _); destruct (Rle_dec _ _); simpl; lra.
Qed.

Lemma div_le_cap (a d : R) : 0 < d -> (a / d <= 2 <-> a / 2 <= d).
Proof.
  intros Hd. split; intros H.
  - assert (a = a / d * d) as Ha by (field; lra).
    assert (a / d * d <= 2 * d) by (apply Rmult_le_compat_r; lra). lra.
  - apply (Rmult_le_reg_r d); [assumption |].
    replace (a / d * d) with a by (field; lra). lra.
Qed.

Lemma scenario_maxDelta : maxDelta scenario_start scenario_target = 1.
Proof.
  unfold maxDelta, displacement, scenario_start, scenario_target. simpl.
  replace (1 - 0) with 1 by lra. replace (0 - 0) with 0 by lra.
  rewrite Rabs_R1, Rabs_R0. unfold Rmax. decide_R; lra.
Qed.

(** Scenario A: a request of ten seconds for one radian is kept. *)
Example scenario_A : safe_duration_of scenario_start scenario_target 10 = 10.
Proof.
  rewrite safe_duration_of_max, scenario_maxDelta.
  unfold MAX_JOINT_VELOCITY, Rmax. decide_R; lra.
Qed.

(** C1. For a requested duration [> 0], [getSafeMovementTime] returns the
    larger of the requested duration and [maxDelta / velocityLimit], with
    [velocityLimit = 2] and [maxDelta = max_i |target_i - start_i|].  So
    the result is at least the requested duration, every joint's average
    rate over it (and so [maxDelta / result]) is within the cap, no
    shorter duration that is at least the requested one keeps the rate
    within the cap, and [maxDelta = 1] with a request of [0.1] gives
    [0.5]. *)
Theorem getSafeMovementTime_minimal_safe (q_start q_target : joints) (desiredDuration : R) :
  0 < desiredDuration ->
  let safeDuration := safe_duration_of q_start q_target desiredDuration in
  let max_delta := maxDelta q_start q_target in
  MAX_JOINT_VELOCITY = 2 /\
  (forall i, (i < 7)%nat -> displacement q_start q_target i <= max_delta) /\
  (exists i, (i < 7)%nat /\ max_delta = displacement q_start q_target i) /\
  safeDuration = Rmax desiredDuration (max_delta / MAX_JOINT_VELOCITY) /\
  desiredDuration <= safeDuration /\
  max_delta / safeDuration <= MAX_JOINT_VELOCITY /\
  (forall i, (i < 7)%nat ->
     displacement q_start q_target i / safeDuration <= MAX_JOINT_VELOCITY) /\
  (forall d, desiredDuration <= d -> max_delta / d <= MAX_JOINT_VELOCITY ->
     safeDuration <= d) /\
  (max_delta = 1 -> desiredDuration = 1 / 10 -> safeDuration = 1 / 2).
Proof.
  intros Hpos safeDuration max_delta.
  assert (Hsafe : safeDuration = Rmax desiredDuration (max_delta / MAX_JOINT_VELOCITY))
    by apply safe_duration_of_max.
  assert (Hge : desiredDuration <= safeDuration) by (rewrite Hsafe; apply Rmax_l).
  assert (Hmin : max_delta / 2 <= safeDuration) by (rewrite Hsafe; apply Rmax_r).
  assert (Hcap : max_delta / safeDuration <= 2) by (apply div_le_cap; lra).
  unfold MAX_JOINT_VELOCITY in *.
  split; [reflexivity |].
  split; [intros i Hi; apply maxDelta_bound; assumption |].
  split; [apply maxDelta_attained |].
  split; [assumption |].
  split; [assumption |].
  split; [assumption |].
  split.
  { intros i Hi. apply div_le_cap; [lra |].
    pose proof (maxDelta_bound q_start q_target i Hi). fold max_delta in H. lra. }
  split.
  { intros d Hd Hrate. apply div_le_cap in Hrate; [| lra].
    rewrite Hsafe. apply Rmax_lub; assumption. }
  intros Hone Htenth. rewrite Hsafe, Hone, Htenth.
  unfold Rmax. decide_R; lra.
Qed.

Lemma getSafeMovementTime_minimal_safe_witness :
  0 < 1 / 10 /\ safe_duration_of scenario_start scenario_target (1 / 10) = 1 / 2.
Proof.
  split; [lra |].
  assert (Hpos : 0 < 1 / 10) by lra.
  pose proof (getSafeMovementTime_minimal_safe scenario_start scenario_target (1 / 10) Hpos)
    as H.
  cbv zeta in H.
  apply H; [apply scenario_maxDelta | reflexivity].
Defined.

(** C9. [getSafeMovementTime] returns for every requested duration, also
    a non-positive one, and the value returned is the larger of the
    request and [maxDelta / 2.0].  The quotient by the requested duration
    appears only inside the warning: with a request of zero the warning
    carries no finite rate while the returned duration is still
    [maxDelta / 2.0].  When start and target differ and the request is
    [<= 0] the returned duration is [maxDelta / 2.0 > 0]. *)
Theorem getSafeMovementTime_total (q_start q_target : joints) (desiredDuration : R) :
  let result := getSafeMovementTime q_start q_target desiredDuration in
  let max_delta := maxDelta q_start q_target in
  fst result = Rmax desiredDuration (max_delta / 2) /\
  (desiredDuration >= max_delta / 2 -> result = (desiredDuration, None)) /\
  (desiredDuration < max_delta / 2 ->
   exists w, result = (max_delta / 2, Some w) /\
             requested_time w = desiredDuration /\
             required_rate w = checked_div max_delta desiredDuration /\
             rate_limit w = 2 /\
             increased_time w = max_delta / 2) /\
  (desiredDuration = 0 -> 0 < max_delta ->
   exists w, result = (max_delta / 2, Some w) /\ required_rate w = None) /\
  ((exists i, (i < 7)%nat /\ Array7.get q_start i <> Array7.get q_target i) ->
   desiredDuration <= 0 ->
   fst result = max_delta / 2 /\ 0 < fst result).
Proof.
  intros result max_delta.
  pose proof (safe_duration_of_max q_start q_target desiredDuration) as Hmax.
  unfold safe_duration_of, MAX_JOINT_VELOCITY in Hmax.
  fold result max_delta in Hmax.
  destruct (getSafeMovementTime_unfold q_start q_target desiredDuration) as [c Hc].
  fold result in Hc. cbv zeta in Hc. fold max_delta in Hc.
  unfold MAX_JOINT_VELOCITY in Hc.
  assert (Hlow : desiredDuration < max_delta / 2 ->
                 exists w, result = (max_delta / 2, Some w) /\
                           requested_time w = desiredDuration /\
                           required_rate w = checked_div max_delta desiredDuration /\
                           rate_limit w = 2 /\
                           increased_time w = max_delta / 2).
  { intros Hlt. rewrite Hc.
    destruct (Rge_dec desiredDuration (max_delta / 2)); [lra |].
    eexists. split; [reflexivity |]. simpl. repeat split. }
  split; [assumption |].
  split.
  { intros Hge. rewrite Hc.
    destruct (Rge_dec desiredDuration (max_delta / 2)); [reflexivity | lra]. }
  split; [assumption |].
  split.
  { intros Hzero Hposd. destruct Hlow as (w & Hw & _ & Hrate & _); [lra |].
    exists w. split; [assumption |].
    rewrite Hrate, Hzero. apply checked_div_zero. }
  intros (i & Hi & Hne) Hle.
  pose proof (maxDelta_pos q_start q_target i Hi Hne) as Hposd.
  fold max_delta in Hposd.
  rewrite Hmax. unfold Rmax. decide_R; lra.
Qed.

Lemma getSafeMovementTime_total_witness :
  (-1 < maxDelta scenario_start scenario_target / 2 /\
   fst (getSafeMovementTime scenario_start scenario_target (-1)) = 1 / 2) /\
  (0 = 0 /\ 0 < maxDelta scenario_start scenario_target /\
   exists w, getSafeMovementTime scenario_start scenario_target 0 = (1 / 2, Some w) /\
             required_rate w = None).
Proof.
  pose proof scenario_maxDelta as Hone.
  split.
  - split; [lra |].
    destruct (getSafeMovementTime_total scenario_start scenario_target (-1))
      as (_ & _ & _ & _ & Hdiff).
    destruct Hdiff as [Hval _]; [| lra | rewrite Hval, Hone; reflexivity].
    exists 0%nat. split; [lia |]. simpl. lra.
  - split; [reflexivity |]. split; [lra |].
    destruct (getSafeMovementTime_total scenario_start scenario_target 0)
      as (_ & _ & _ & Hzero & _).
    destruct Hzero as (w & Hw & Hrate); [reflexivity | lra |].
    exists w. rewrite Hw, Hone. split; [reflexivity | assumption].
Defined.

(** ** The control callback *)

Lemma control_step_command (q_current q_target : joints) (safe_duration : R)
    (time_total period : R) :
  exists q_desired,
    control_step q_current q_target safe_duration time_total period =
    (time_total + period,
     mkJointPositions q_desired
       (if Rge_dec (time_total + period) (finish_time safe_duration) then true else false))
    /\ forall i, (i < 7)%nat ->
         Array7.get q_desired i =
         interpolate q_current q_target
           (quinticPath (time_total + period) safe_duration) i.
Proof.
  unfold control_step, finish_time. cbv zeta.
  eexists. split.
  - destruct (Rge_dec _ _); reflexivity.
  - intros i Hi. unfold interpolate.
    do 7 (destruct i as [| i]; [reflexivity |]). lia.
Qed.

Lemma elapsed_from_cons (time_total period : R) (rest : list R) (n : nat) :
  elapsed_from time_total (period :: rest) (S n) =
  elapsed_from (time_total + period) rest n.
Proof. reflexivity. Qed.

Lemma control_first_finish (q_current q_target : joints) (safe_duration : R)
    (periods : list R) :
  forall (time_total : R) (n : nat),
    (n < length periods)%nat ->
    (forall k, (k < n)%nat ->
       elapsed_from time_total periods (S k) < finish_time safe_duration) ->
    elapsed_from time_total periods (S n) >= finish_time safe_duration ->
    exists sent,
      control (control_step q_current q_target safe_duration) time_total periods
      = (sent, true) /\
      length sent = S n /\
      forall k, (k <= n)%nat ->
        exists command,
          nth_error sent k = Some command /\
          motion_finished command = (k =? n)%nat /\
          forall i, (i < 7)%nat ->
            Array7.get (q command) i =
            interpolate q_current q_target
              (quinticPath (elapsed_from time_total periods (S k)) safe_duration) i.
Proof.
  induction periods as [| period rest IH]; intros time_total n Hlen Hbefore Hreach.
  - simpl in Hlen. lia.
  - destruct (control_step_command q_current q_target safe_duration time_total period)
      as (q_desired & Hstep & Hq).
    simpl control. rewrite Hstep.
    destruct n as [| n].
    + rewrite elapsed_from_cons in Hreach. unfold elapsed_from in Hreach.
      simpl in Hreach.
      destruct (Rge_dec (time_total + period) (finish_time safe_duration)); [| lra].
      simpl. eexists. split; [reflexivity |]. split; [reflexivity |].
      intros k Hk. assert (k = 0%nat) as -> by lia.
      eexists. split; [reflexivity |]. split; [reflexivity |].
      intros i Hi. simpl. rewrite elapsed_from_cons. apply Hq. assumption.
    + assert (Hfirst : time_total + period < finish_time safe_duration).
      { specialize (Hbefore 0%nat). rewrite elapsed_from_cons in Hbefore.
        apply Hbefore. lia. }
      destruct (Rge_dec (time_total + period) (finish_time safe_duration)); [lra |].
      simpl motion_finished. cbv iota.
      destruct (IH (time_total + period) n) as (sent & Hrun & Hsize & Hsent).
      * simpl in Hlen. lia.
      * intros k Hk. rewrite <- elapsed_from_cons. apply Hbefore. lia.
      * rewrite <- elapsed_from_cons. assumption.
      * rewrite Hrun. eexists. split; [reflexivity |].
        split; [simpl; rewrite Hsize; reflexivity |].
        intros k Hk. destruct k as [| k].
        -- eexists. split; [reflexivity |]. split; [reflexivity |].
           intros i Hi. simpl. rewrite elapsed_from_cons. apply Hq. assumption.
        -- destruct (Hsent k) as (command & Hnth & Hflag & Hcmd); [lia |].
           exists command. split; [assumption |]. split; [assumption |].
           intros i Hi. rewrite elapsed_from_cons. apply Hcmd. assumption.
Qed.

(** C2. One control cycle adds the period to the elapsed time, commands
    [start_i + fraction * (target_i - start_i)] on all seven axes with
    [fraction = s(elapsed, safeDuration)], and flags the motion finished
    exactly when the elapsed time has reached [safeDuration * 1.01].
    Over a run of cycles, if cycle [n] is the first at which the elapsed
    time reaches that threshold, then exactly the cycles [0..n] are run,
    cycle [n] is the only one flagged finished, and control returns. *)
Theorem control_step_finishes_at_threshold
    (q_start q_target : joints) (safeDuration : R) :
  (forall elapsed dt,
     let '(elapsed', command) :=
       control_step q_start q_target safeDuration elapsed dt in
     elapsed' = elapsed + dt /\
     (forall i, (i < 7)%nat ->
        Array7.get (q command) i =
        Array7.get q_start i
        + quinticPath elapsed' safeDuration
          * (Array7.get q_target i - Array7.get q_start i)) /\
     (motion_finished command = true <-> elapsed' >= safeDuration * (101 / 100))) /\
  (forall periods n,
     (n < length periods)%nat ->
     (forall k, (k < n)%nat ->
        elapsed_after periods (S k) < safeDuration * (101 / 100)) ->
     elapsed_after periods (S n) >= safeDuration * (101 / 100) ->
     exists sent,
       control (control_step q_start q_target safeDuration) 0 periods = (sent, true) /\
       length sent = S n /\
       forall k, (k <= n)%nat ->
         exists command,
           nth_error sent k = Some command /\
           motion_finished command = (k =? n)%nat /\
           forall i, (i < 7)%nat ->
             Array7.get (q command) i =
             Array7.get q_start i
             + quinticPath (elapsed_after periods (S k)) safeDuration
               * (Array7.get q_target i - Array7.get q_start i)).
Proof.
  split.
  - intros elapsed dt.
    destruct (control_step_command q_start q_target safeDuration elapsed dt)
      as (q_desired & -> & Hq).
    split; [reflexivity |]. split; [exact Hq |].
    unfold finish_time. simpl.
    destruct (Rge_dec _ _); split; intros; (reflexivity || lra || discriminate).
  - intros periods n Hlen Hbefore Hreach.
    exact (control_first_finish q_start q_target safeDuration periods 0 n
             Hlen Hbefore Hreach).
Qed.

Lemma control_step_finishes_at_threshold_witness :
  let periods := [1 / 4; 1 / 4; 1 / 200; 1] in
  (2 < length periods)%nat /\
  elapsed_after periods 3 >= 1 / 2 * (101 / 100) /\
  exists sent,
    control (control_step scenario_start scenario_target (1 / 2)) 0 periods
    = (sent, true) /\
    length sent = 3%nat.
Proof.
  intros periods.
  assert (Hlen : (2 < length periods)%nat) by (simpl; lia).
  assert (Hreach : elapsed_after periods 3 >= 1 / 2 * (101 / 100))
    by (unfold elapsed_after, elapsed_from; simpl; lra).
  assert (Hbefore : forall k, (k < 2)%nat ->
                      elapsed_after periods (S k) < 1 / 2 * (101 / 100)).
  { intros k Hk. destruct k as [| [| k]]; [| | lia];
      unfold elapsed_after, elapsed_from; simpl; lra. }
  split; [exact Hlen |]. split; [exact Hreach |].
  destruct (proj2 (control_step_finishes_at_threshold scenario_start scenario_target (1 / 2))
              periods 2%nat Hlen Hbefore Hreach) as (sent & Hrun & Hsize & _).
  exists sent. split; assumption.
Defined.

(** ** Recovery and retry *)

Lemma moveJoints_done (robot : Robot) (w w1 : World) (q_target : joints)
    (desired_duration actual_duration : R) (recover_on_error : bool) :
  try_motion robot w q_target desired_duration = (Some actual_duration, w1) ->
  moveJoints robot w q_target desired_duration recover_on_error = (actual_duration, w1).
Proof. intros H. simp moveJoints. rewrite H. simpl. reflexivity. Qed.

Lemma moveJoints_retry (robot : Robot) (w w1 : World) (q_target : joints)
    (desired_duration : R) :
  try_motion robot w q_target desired_duration = (None, w1) ->
  moveJoints robot w q_target desired_duration true =
  moveJoints robot (recoverRobot robot (emit w1 [EvException; EvRetrying]))
    q_target desired_duration false.
Proof. intros H. simp moveJoints. rewrite H. simpl. simp moveJoints. reflexivity. Qed.

Lemma moveJoints_give_up (robot : Robot) (w w1 : World) (q_target : joints)
    (desired_duration : R) :
  try_motion robot w q_target desired_duration = (None, w1) ->
  moveJoints robot w q_target desired_duration false = (-1, emit w1 [EvException]).
Proof. intros H. simp moveJoints. rewrite H. simpl. reflexivity. Qed.

Lemma try_motion_counts (robot : Robot) (w : World) (q_target : joints)
    (desired_duration : R) :
  attempts_made (snd (try_motion robot w q_target desired_duration))
  = S (attempts_made w) /\
  recoveries_made (snd (try_motion robot w q_target desired_duration))
  = recoveries_made w.
Proof.
  unfold try_motion.
  destruct (read_once _); [| split; reflexivity].
  destruct (getSafeMovementTime _ _ _) as [safe_duration warning].
  destruct (control _ _ _) as [sent ok].
  destruct ok; split; reflexivity.
Qed.

Lemma recoverRobot_counts (robot : Robot) (w : World) :
  attempts_made (recoverRobot robot w) = attempts_made w /\
  recoveries_made (recoverRobot robot w) = S (recoveries_made w).
Proof. unfold recoverRobot. destruct (recovery _ _); split; reflexivity. Qed.

Lemma moveJoints_nested_counts (robot : Robot) (w : World) (q_target : joints)
    (desired_duration : R) :
  attempts_made (snd (moveJoints robot w q_target desired_duration false))
  = S (attempts_made w) /\
  recoveries_made (snd (moveJoints robot w q_target desired_duration false))
  = recoveries_made w.
Proof.
  pose proof (try_motion_counts robot w q_target desired_duration) as Hc.
  destruct (try_motion robot w q_target desired_duration) as [[actual |] w1] eqn:Htry.
  - rewrite (moveJoints_done _ _ _ _ _ _ _ Htry). exact Hc.
  - rewrite (moveJoints_give_up _ _ _ _ _ Htry). exact Hc.
Qed.

(** C5. With [recover_on_error] at its default, a faulting attempt is
    followed by one recovery and then one more attempt made with
    [recover_on_error = false]; that nested call makes a single attempt
    and no recovery, so a move costs at most two attempts.  If the second
    attempt faults as well the result is [-1] and nothing more is tried. *)
Theorem moveJoints_retries_once (robot : Robot) (w : World) (q_target : joints)
    (desired_duration : R) :
  let first := try_motion robot w q_target desired_duration in
  let recovered := recoverRobot robot (emit (snd first) [EvException; EvRetrying]) in
  let retry := try_motion robot recovered q_target desired_duration in
  let result := moveJoints_default robot w q_target desired_duration in
  (forall actual, fst first = Some actual ->
     result = (actual, snd first) /\
     attempts_made (snd result) = S (attempts_made w) /\
     recoveries_made (snd result) = recoveries_made w) /\
  (fst first = None ->
     result = moveJoints robot recovered q_target desired_duration false /\
     attempts_made recovered = S (attempts_made w) /\
     recoveries_made recovered = S (recoveries_made w) /\
     attempts_made (snd result) = S (S (attempts_made w)) /\
     recoveries_made (snd result) = S (recoveries_made w) /\
     (forall actual, fst retry = Some actual -> result = (actual, snd retry)) /\
     (fst retry = None -> result = (-1, emit (snd retry) [EvException]))) /\
  (forall w',
     attempts_made (snd (moveJoints robot w' q_target desired_duration false))
     = S (attempts_made w') /\
     recoveries_made (snd (moveJoints robot w' q_target desired_duration false))
     = recoveries_made w') /\
  (attempts_made (snd result) <= attempts_made w + 2)%nat /\
  (recoveries_made (snd result) <= recoveries_made w + 1)%nat.
Proof.
  intros first recovered retry result. unfold moveJoints_default in result.
  pose proof (try_motion_counts robot w q_target desired_duration) as [Ha Hr].
  fold first in Ha, Hr.
  pose proof (recoverRobot_counts robot (emit (snd first) [EvException; EvRetrying]))
    as [Hra Hrr].
  fold recovered in Hra, Hrr. simpl in Hra, Hrr.
  pose proof (moveJoints_nested_counts robot recovered q_target desired_duration)
    as [Hna Hnr].
  assert (Hok : forall actual, fst first = Some actual ->
                  result = (actual, snd first)).
  { intros actual Hfst. apply moveJoints_done.
    fold first. destruct first as [o w1]. simpl in Hfst. subst o. reflexivity. }
  assert (Hfault : fst first = None ->
                   result = moveJoints robot recovered q_target desired_duration false).
  { intros Hfst. apply moveJoints_retry.
    fold first. destruct first as [o w1]. simpl in Hfst. subst o. reflexivity. }
  split.
  { intros actual Hfst. rewrite (Hok actual Hfst). simpl. auto. }
  split.
  { intros Hfst. rewrite (Hfault Hfst).
    split; [reflexivity |].
    split; [congruence |]. split; [congruence |].
    split; [congruence |]. split; [congruence |].
    split.
    - intros actual Hretry. apply moveJoints_done.
      fold retry. destruct retry as [o w2]. simpl in Hretry. subst o. reflexivity.
    - intros Hretry. apply moveJoints_give_up.
      fold retry. destruct retry as [o w2]. simpl in Hretry. subst o. reflexivity. }
  split; [intros w'; apply moveJoints_nested_counts |].
  destruct (fst first) as [actual |] eqn:Hfst.
  - rewrite (Hok actual eq_refl). simpl. lia.
  - rewrite (Hfault eq_refl). lia.
Qed.

Lemma moveJoints_retries_once_witness :
  fst (try_motion faulty_robot initial_world scenario_target 1) = None /\
  fst (try_motion faulty_robot
         (recoverRobot faulty_robot
            (emit (snd (try_motion faulty_robot initial_world scenario_target 1))
               [EvException; EvRetrying]))
         scenario_target 1) = None /\
  fst (moveJoints_default faulty_robot initial_world scenario_target 1) = -1 /\
  attempts_made (snd (moveJoints_default faulty_robot initial_world scenario_target 1))
  = 2%nat /\
  recoveries_made (snd (moveJoints_default faulty_robot initial_world scenario_target 1))
  = 1%nat.
Proof.
  split; [reflexivity |]. split; [reflexivity |].
  destruct (moveJoints_retries_once faulty_robot initial_world scenario_target 1)
    as (_ & Hfault & _).
  destruct (Hfault eq_refl) as (_ & _ & _ & Hattempts & Hrecoveries & _ & Hfailed).
  rewrite (Hfailed eq_refl) in *.
  split; [reflexivity |]. split; assumption.
Defined.

(** ** A requested duration that is not positive *)

Lemma safe_duration_of_nonpositive (q_start q_target : joints) (desired_duration : R) :
  desired_duration <= 0 ->
  safe_duration_of q_start q_target desired_duration = maxDelta q_start q_target / 2
  /\ 0 <= maxDelta q_start q_target / 2.
Proof.
  intros Hle. pose proof (maxDelta_nonneg q_start q_target) as Hnn.
  rewrite safe_duration_of_max. unfold MAX_JOINT_VELOCITY, Rmax.
  decide_R; lra.
Qed.

(** An attempt whose state read succeeds and whose control loop runs to
    the finishing command ends the move with the measured duration. *)
Lemma moveJoints_completes (robot : Robot) (w : World) (q_target : joints)
    (desired_duration : R) (recover_on_error : bool)
    (q_current : joints) (sent : list JointPositions) :
  let a := attempt robot (attempts_made w) in
  let safe_duration := safe_duration_of q_current q_target desired_duration in
  read_once a = Some q_current ->
  control (control_step q_current q_target safe_duration) 0 (cycles a) = (sent, true) ->
  exists warning,
    moveJoints robot w q_target desired_duration recover_on_error =
    (wall_clock a,
     mkWorld (S (attempts_made w)) (recoveries_made w)
       (((((log w ++ [EvReadOnce q_current])
          ++ [EvSafeDuration desired_duration safe_duration warning])
          ++ map EvCommand sent)
          ++ [EvMoveCompleted desired_duration (wall_clock a); EvSleepMs 100]))).
Proof.
  intros a safe_duration Hread Hrun.
  unfold safe_duration, safe_duration_of in *.
  destruct (getSafeMovementTime q_current q_target desired_duration)
    as [safe warning] eqn:Hsafe.
  simpl in Hrun. exists warning.
  apply moveJoints_done.
  unfold try_motion. fold a. rewrite Hread, Hsafe, Hrun. reflexivity.
Qed.

Lemma steady_robot_negative_duration :
  exists w' warning,
    moveJoints steady_robot initial_world scenario_target (-1) true = (3 / 4, w') /\
    In (EvSafeDuration (-1) (1 / 2) warning) (log w').
Proof.
  destruct (safe_duration_of_nonpositive scenario_start scenario_target (-1))
    as [Hsafe _]; [lra |].
  rewrite scenario_maxDelta in Hsafe.
  destruct (control_first_finish scenario_start scenario_target (1 / 2)
              [0; 1 / 4; 1 / 4; 1 / 4] 0 3) as (sent & Hrun & _).
  - simpl. lia.
  - intros k Hk. destruct k as [| [| [| k]]]; [| | | lia];
      unfold elapsed_from, finish_time; simpl; lra.
  - unfold elapsed_from, finish_time. simpl. lra.
  - destruct (moveJoints_completes steady_robot initial_world scenario_target (-1) true
                scenario_start sent) as [warning Hmove].
    + reflexivity.
    + simpl cycles. rewrite Hsafe. exact Hrun.
    + rewrite Hsafe in Hmove. simpl in Hmove.
      eexists. exists warning. split; [exact Hmove |].
      simpl. right. left. reflexivity.
Qed.

Lemma existsb_computes_safe_duration (events : list Event)
    (desired safe : R) (warning : option SpeedWarning) :
  In (EvSafeDuration desired safe warning) events ->
  existsb computes_safe_duration events = true.
Proof.
  intros Hin. apply existsb_exists.
  exists (EvSafeDuration desired safe warning). split; [assumption | reflexivity].
Qed.

(** C3 does not hold of the code: a move requested with duration [-1] on
    a robot that runs without fault is executed over [0.5] seconds and
    reported as done in [0.75] seconds, not rejected. *)
Lemma nonpositive_duration_is_not_rejected :
  ~ (forall robot w q_target desired_duration,
       desired_duration <= 0 ->
       rejected_as_invalid (moveJoints robot w q_target desired_duration true)).
Proof.
  intros Hreject.
  assert (Hle : -1 <= 0) by lra.
  specialize (Hreject steady_robot initial_world scenario_target (-1) Hle).
  destruct steady_robot_negative_duration as (w' & warning & Hmove & _).
  rewrite Hmove in Hreject. destruct Hreject as [Hneg _]. simpl in Hneg. lra.
Qed.

(** C3, as the code has it.  A requested duration [<= 0] is not checked:
    once the joint state is read the safe duration is computed for it and
    is [maxDelta / 2.0 >= 0], the control loop runs with that duration,
    and when the loop reaches its finishing command the move is reported
    with the measured time; it is not rejected. *)
Theorem moveJoints_accepts_nonpositive_duration (robot : Robot) (w : World)
    (q_target : joints) (desired_duration : R)
    (q_current : joints) (sent : list JointPositions) :
  let a := attempt robot (attempts_made w) in
  let safe_duration := maxDelta q_current q_target / 2 in
  desired_duration <= 0 ->
  read_once a = Some q_current ->
  control (control_step q_current q_target safe_duration) 0 (cycles a) = (sent, true) ->
  fst (getSafeMovementTime q_current q_target desired_duration) = safe_duration /\
  0 <= safe_duration /\
  exists w' warning,
    moveJoints robot w q_target desired_duration true = (wall_clock a, w') /\
    In (EvSafeDuration desired_duration safe_duration warning) (log w') /\
    Forall (fun command => In (EvCommand command) (log w')) sent /\
    ~ rejected_as_invalid (moveJoints robot w q_target desired_duration true).
Proof.
  intros a safe_duration Hle Hread Hrun.
  destruct (safe_duration_of_nonpositive q_current q_target desired_duration Hle)
    as [Hsafe Hnn].
  fold safe_duration in Hsafe, Hnn.
  split; [exact Hsafe |]. split; [exact Hnn |].
  destruct (moveJoints_completes robot w q_target desired_duration true q_current sent)
    as [warning Hmove]; [exact Hread | rewrite Hsafe; exact Hrun |].
  fold a in Hmove. rewrite Hsafe in Hmove.
  eexists. exists warning.
  split; [exact Hmove |].
  assert (Hin : In (EvSafeDuration desired_duration safe_duration warning)
                  (((((log w ++ [EvReadOnce q_current])
                     ++ [EvSafeDuration desired_duration safe_duration warning])
                     ++ map EvCommand sent)
                     ++ [EvMoveCompleted desired_duration (wall_clock a); EvSleepMs 100]))).
  { apply in_or_app. left. apply in_or_app. left. apply in_or_app. right.
    left. reflexivity. }
  split; [exact Hin |].
  split.
  { apply Forall_forall. intros command Hcmd. simpl.
    apply in_or_app. left. apply in_or_app. right.
    apply in_map. assumption. }
  rewrite Hmove. intros [_ Hnone]. simpl in Hnone.
  rewrite (existsb_computes_safe_duration _ _ _ _ Hin) in Hnone. discriminate.
Qed.

Lemma moveJoints_accepts_nonpositive_duration_witness :
  0 <= 0 /\
  read_once (attempt steady_robot 0) = Some scenario_start /\
  fst (getSafeMovementTime scenario_start scenario_start 0) = 0 /\
  exists w',
    moveJoints steady_robot initial_world scenario_start 0 true = (3 / 4, w').
Proof.
  assert (Hzero : maxDelta scenario_start scenario_start / 2 = 0).
  { unfold maxDelta, displacement, scenario_start. simpl.
    replace (0 - 0) with 0 by lra. rewrite Rabs_R0.
    unfold Rmax. decide_R; lra. }
  assert (Hrun : control
                   (control_step scenario_start scenario_start
                      (maxDelta scenario_start scenario_start / 2)) 0
                   (cycles (attempt steady_robot (attempts_made initial_world)))
                 = ([snd (control_step scenario_start scenario_start
                            (maxDelta scenario_start scenario_start / 2) 0 0)], true)).
  { rewrite Hzero. simpl. unfold control_step. cbv zeta.
    destruct (Rge_dec (0 + 0) (0 * (101 / 100))); [reflexivity | lra]. }
  assert (Hle : 0 <= 0) by lra.
  destruct (moveJoints_accepts_nonpositive_duration steady_robot initial_world
              scenario_start 0 scenario_start _ Hle eq_refl Hrun)
    as (Hsafe & _ & w' & warning & Hmove & _).
  split; [exact Hle |]. split; [reflexivity |].
  split; [rewrite Hsafe; exact Hzero |].
  exists w'. exact Hmove.
Defined.

(** ** The configuration reader *)

Section ReaderProperties.

Variable num_get_int : string -> Extraction Z.
Variable num_get_double : string -> Extraction R.

(** No integer is converted from input that begins with [#]. *)
Hypothesis num_get_int_hash :
  forall s value rest, num_get_int (String "#" s) <> Converted value rest.

(** An extraction from a stream in good state succeeds exactly when the
    field converts. *)
Lemma extract_field {A : Type} (num_get : string -> Extraction A)
    (s : string) (old : A) :
  match field num_get s with
  | Some (value, rest) =>
      extract num_get (mkStream s false) old = (value, mkStream rest false)
  | None =>
      exists stored,
        extract num_get (mkStream s false) old = (stored, mkStream (skipws s) true)
  end.
Proof.
  unfold field, extract. cbn [failbit unread].
  destruct (empty (skipws s)); [eauto |].
  destruct (num_get (skipws s)); eauto.
Qed.

Lemma extract_failed {A : Type} (num_get : string -> Extraction A)
    (s : string) (old : A) :
  extract num_get (mkStream s true) old = (old, mkStream s true).
Proof. reflexivity. Qed.

Lemma read_joint_good (line s rest : string) (move : DanceMove)
    (cerr : list Message) (i : nat) (value : R) :
  field_double num_get_double s = Some (value, rest) ->
  read_joint num_get_double line (mkStream s false, move, cerr) i =
  (mkStream rest false,
   mkDanceMove (move_index move) (Array7.set (move_joints move) i value)
     (move_time move),
   cerr).
Proof.
  intros Hfield. unfold read_joint, extract_double.
  pose proof (extract_field num_get_double s (Array7.get (move_joints move) i)) as Hx.
  unfold field_double in Hfield. rewrite Hfield in Hx. rewrite Hx. reflexivity.
Qed.

Lemma read_joint_bad (line s : string) (move : DanceMove)
    (cerr : list Message) (i : nat) :
  field_double num_get_double s = None ->
  exists move',
    read_joint num_get_double line (mkStream s false, move, cerr) i =
    (mkStream (skipws s) true, move', cerr ++ [ErrJoint i line]).
Proof.
  intros Hfield. unfold read_joint, extract_double.
  pose proof (extract_field num_get_double s (Array7.get (move_joints move) i)) as Hx.
  unfold field_double in Hfield. rewrite Hfield in Hx.
  destruct Hx as [stored ->]. eexists. reflexivity.
Qed.

(** Once the fail bit is set the rest of the joint loop leaves it set. *)
Lemma read_joints_failed (line : string) (l : list nat) :
  forall s move cerr,
  exists move' cerr',
    fold_left (read_joint num_get_double line) l (mkStream s true, move, cerr)
    = (mkStream s true, move', cerr').
Proof.
  induction l as [| i l IH]; intros s move cerr; simpl.
  - eauto.
  - apply IH.
Qed.

(** A line on which the move time is read from a failed stream adds no
    move. *)
Lemma read_line_tail_failed (line s : string) (l : list nat) (move : DanceMove)
    (dance_moves : list DanceMove) (out : list Message) :
  fst (let '(iss, move, out) :=
         fold_left (read_joint num_get_double line) l (mkStream s true, move, out) in
       let '(time, iss) := extract_double num_get_double iss (move_time move) in
       let move := mkDanceMove (move_index move) (move_joints move) time in
       if failbit iss then (dance_moves, out ++ [ErrMoveTime line])
       else (dance_moves ++ [move],
             out ++ [Loaded (move_index move) (move_time move)]))
  = dance_moves.
Proof.
  destruct (read_joints_failed line l s move out) as (move' & cerr' & ->).
  reflexivity.
Qed.

Lemma skipped_line_has_no_record (line : string) :
  (empty line || starts_with_hash line)%bool = true ->
  parse_record num_get_int num_get_double line = None.
Proof.
  intros Hskip.
  assert (Hfield : field_int num_get_int line = None).
  { unfold field_int, field. destruct line as [| c line']; [reflexivity |].
    simpl in Hskip. apply Ascii.eqb_eq in Hskip. subst c. simpl.
    destruct (num_get_int (String "#" line')) as [value rest |] eqn:Hint;
      [| reflexivity].
    exfalso. exact (num_get_int_hash _ _ _ Hint). }
  unfold parse_record. rewrite Hfield. reflexivity.
Qed.

Lemma read_line_record (uninit : DanceMove) (dance_moves : list DanceMove)
    (out : list Message) (line : string) :
  fst (read_line num_get_int num_get_double uninit (dance_moves, out) line)
  = dance_moves ++ record_of_line num_get_int num_get_double line.
Proof.
  unfold read_line, record_of_line.
  destruct (empty line || starts_with_hash line)%bool eqn:Hskip.
  { rewrite (skipped_line_has_no_record line Hskip).
    simpl. rewrite app_nil_r. reflexivity. }
  unfold parse_record, extract_int.
  pose proof (extract_field num_get_int line (move_index uninit)) as Hindex.
  fold (field_int num_get_int) in Hindex.
  destruct (field_int num_get_int line) as [[index r0] |].
  2: { destruct Hindex as [stored ->]. simpl. rewrite app_nil_r. reflexivity. }
  rewrite Hindex. cbn [failbit].
  unfold Array7.indices, Array7.size. cbn [seq].
  repeat match goal with
    | |- context [fold_left (read_joint num_get_double line) (?i :: ?l)
                    (mkStream ?s false, ?m, ?c)] =>
        let Hfield := fresh "Hfield" in
        change (fold_left (read_joint num_get_double line) (i :: l)
                  (mkStream s false, m, c))
          with (fold_left (read_joint num_get_double line) l
                  (read_joint num_get_double line (mkStream s false, m, c) i));
        destruct (field_double num_get_double s) as [[? ?] |] eqn:Hfield;
        [ rewrite (read_joint_good line s _ m c i _ Hfield)
        | destruct (read_joint_bad line s m c i Hfield) as [? ->];
          rewrite read_line_tail_failed; cbn; rewrite app_nil_r; reflexivity ]
    end.
  cbn [fold_left].
  match goal with
  | |- context [extract_double num_get_double (mkStream ?s false) ?old] =>
      pose proof (extract_field num_get_double s old) as Htime;
      fold (field_double num_get_double) in Htime;
      fold (extract_double num_get_double) in Htime;
      destruct (field_double num_get_double s) as [[time rest] |]
  end.
  - rewrite Htime. reflexivity.
  - destruct Htime as [stored ->]. cbn. rewrite app_nil_r. reflexivity.
Qed.

Lemma read_lines_records (uninit : DanceMove) (lines : list string) :
  forall dance_moves out,
    fst (fold_left (read_line num_get_int num_get_double uninit) lines (dance_moves, out))
    = dance_moves ++ flat_map (record_of_line num_get_int num_get_double) lines.
Proof.
  induction lines as [| line lines IH]; intros dance_moves out;
    cbn [fold_left flat_map].
  - rewrite app_nil_r. reflexivity.
  - pose proof (read_line_record uninit dance_moves out line) as Hline.
    destruct (read_line num_get_int num_get_double uninit (dance_moves, out) line) as [moves' out'].
    simpl in Hline. subst moves'.
    rewrite IH, <- app_assoc. reflexivity.
Qed.

(** C4, as the code has it.  A line adds a move to the sequence exactly
    when nine extractions succeed on it in order: the move index, the
    seven joint values and the move time, each skipping white space and
    converting from what the one before left unread.  The move added
    holds exactly those values; a line on which one of them fails adds
    nothing.  The sequence read from a file is the records of its lines,
    in order. *)
Theorem readDanceMovesFromConfig_whole_records (uninit : DanceMove)
    (lines : list string) :
  (forall dance_moves out line,
     (forall move, parse_record num_get_int num_get_double line = Some move ->
        fst (read_line num_get_int num_get_double uninit (dance_moves, out) line) = dance_moves ++ [move]) /\
     (parse_record num_get_int num_get_double line = None ->
        fst (read_line num_get_int num_get_double uninit (dance_moves, out) line) = dance_moves) /\
     ((exists move,
         fst (read_line num_get_int num_get_double uninit (dance_moves, out) line) = dance_moves ++ [move])
      <-> (exists move, parse_record num_get_int num_get_double line = Some move))) /\
  fst (fold_left (read_line num_get_int num_get_double uninit) lines ([], [])) = flat_map (record_of_line num_get_int num_get_double) lines /\
  fst (readDanceMovesFromConfig num_get_int num_get_double uninit (Some lines))
  = match flat_map (record_of_line num_get_int num_get_double) lines with
    | [] => inl NoValidMoves
    | move :: moves => inr (move :: moves)
    end.
Proof.
  split.
  { intros dance_moves out line.
    pose proof (read_line_record uninit dance_moves out line) as Hline.
    unfold record_of_line in Hline.
    destruct (parse_record num_get_int num_get_double line) as [parsed |].
    - split; [intros move [= <-]; exact Hline |].
      split; [discriminate |].
      split; intros _; exists parsed; [reflexivity | exact Hline].
    - rewrite app_nil_r in Hline.
      split; [discriminate |].
      split; [intros _; exact Hline |].
      split; [| intros [move Hmove]; discriminate].
      intros [move Hmove]. rewrite Hline in Hmove.
      apply (f_equal (@length DanceMove)) in Hmove.
      rewrite length_app in Hmove. simpl in Hmove. lia. }
  pose proof (read_lines_records uninit lines [] []) as Hall.
  simpl in Hall.
  split; [exact Hall |].
  unfold readDanceMovesFromConfig.
  destruct (fold_left (read_line num_get_int num_get_double uninit) lines ([], [])) as [moves out].
  simpl in Hall. rewrite <- Hall.
  destruct moves; reflexivity.
Qed.

End ReaderProperties.

Lemma decimal_int_hash (s : string) (value : Z) (rest : string) :
  decimal_int (String "#" s) <> Converted value rest.
Proof. discriminate. Qed.

(** The well-formed record of the example configuration. *)
Lemma example_record :
  exists move,
    parse_record decimal_int decimal_double "2 1 0 0 0 0 0 0 3.5" = Some move /\
    move_index move = 2%Z /\
    Array7.get (move_joints move) 0 = 1 /\
    move_time move = 7 / 2.
Proof.
  eexists. split; [reflexivity |]. split; [reflexivity |]. split; simpl; lra.
Qed.

(** C4 does not hold of the code with fields read as the white-space
    separated parts of the line: a line of eight parts, whose first is
    not an integer, still adds a move (index 1, first joint 0.5, time
    2). *)
Lemma line_with_eight_fields_adds_a_move :
  ~ (forall line,
       (exists move,
          fst (read_line decimal_int decimal_double stale_move ([], []) line) = [move])
       <-> (exists move, spec_record decimal_int decimal_double line = Some move)).
Proof.
  intros Hclaim.
  destruct (Hclaim "1.5 0 0 0 0 0 0 2"%string) as [Hadds _].
  destruct Hadds as [move Hmove]; [eexists; reflexivity |].
  assert (Hnone : spec_record decimal_int decimal_double "1.5 0 0 0 0 0 0 2" = None)
    by reflexivity.
  rewrite Hnone in Hmove. discriminate.
Qed.

(** On a line of nine well-formed parts both readings give the same move. *)
Lemma well_formed_line_agrees :
  exists move,
    spec_record decimal_int decimal_double "2 1 0 0 0 0 0 0 3.5" = Some move /\
    parse_record decimal_int decimal_double "2 1 0 0 0 0 0 0 3.5" = Some move.
Proof. eexists. split; reflexivity. Qed.

(** What the reader makes of that line, and of text after the move time. *)
Lemma fields_need_not_be_separated :
  (exists move,
     parse_record decimal_int decimal_double "1.5 0 0 0 0 0 0 2" = Some move /\
     move_index move = 1%Z /\
     Array7.get (move_joints move) 0 = 1 / 2 /\
     move_time move = 2) /\
  (exists move,
     parse_record decimal_int decimal_double "1 2 3 4 5 6 7 8 9x" = Some move /\
     move_time move = 9) /\
  spec_record decimal_int decimal_double "1 2 3 4 5 6 7 8 9x" = None.
Proof.
  split; [| split].
  - eexists. split; [reflexivity |]. split; [reflexivity |]. split; simpl; lra.
  - eexists. split; [reflexivity |]. simpl. lra.
  - reflexivity.
Qed.

Lemma readDanceMovesFromConfig_whole_records_witness :
  (forall s value rest, decimal_int (String "#" s) <> Converted value rest) /\
  parse_record decimal_int decimal_double "1 0 0 0 x 0 0 0 2" = None /\
  fst (read_line decimal_int decimal_double stale_move ([], []) "1 0 0 0 x 0 0 0 2") = [] /\
  exists move,
    fst (readDanceMovesFromConfig decimal_int decimal_double stale_move
           (Some example_config)) = inr [move] /\
    move_index move = 2%Z.
Proof.
  split; [exact decimal_int_hash |].
  destruct (readDanceMovesFromConfig_whole_records decimal_int decimal_double
              decimal_int_hash stale_move example_config) as (Hline & _ & Hfile).
  split; [reflexivity |].
  split.
  - apply (Hline [] [] "1 0 0 0 x 0 0 0 2"%string). reflexivity.
  - rewrite Hfile. eexists. split; reflexivity.
Defined.

(** * Further properties of the code *)

(** ** The shape of the quintic profile *)

Lemma quintic_slope_peak (x : R) : 0 <= x <= 1 -> quintic_slope x <= 15 / 8.
Proof.
  intros [H0 H1]. unfold quintic_slope.
  assert (Hlow : 0 <= x * (1 - x)) by (apply Rmult_le_pos; lra).
  assert (Hhigh : x * (1 - x) <= 1 / 4).
  { pose proof (pow2_ge_0 (x - 1 / 2)). nra. }
  set (p := x * (1 - x)) in *.
  assert (p ^ 2 <= 1 / 16) by nra.
  lra.
Qed.

Lemma quintic_rate (u v : R) :
  0 <= u -> u <= v -> v <= 1 -> quintic v - quintic u <= 15 / 8 * (v - u).
Proof.
  intros H0 Huv H1.
  rewrite quintic_increment.
  pose proof (quintic_slope_peak u).
  pose proof (quintic_slope_peak v).
  pose proof (quintic_slope_peak ((3 * u + v) / 4)).
  pose proof (quintic_slope_peak ((u + v) / 2)).
  pose proof (quintic_slope_peak ((u + 3 * v) / 4)).
  set (avg := 7 * quintic_slope u + 32 * quintic_slope ((3 * u + v) / 4)
              + 12 * quintic_slope ((u + v) / 2)
              + 32 * quintic_slope ((u + 3 * v) / 4) + 7 * quintic_slope v) in *.
  assert (avg <= 90 * (15 / 8)) by (unfold avg; lra).
  assert ((v - u) / 90 * avg <= (v - u) / 90 * (90 * (15 / 8)))
    by (apply Rmult_le_compat_l; lra).
  lra.
Qed.

(** For a positive duration the profile is the quintic of the elapsed
    fraction clamped to [[0, 1]]. *)
Lemma quinticPath_clamped (t T : R) :
  0 < T -> quinticPath t T = quintic (Rmin 1 (Rmax 0 (t / T))).
Proof.
  intros HT.
  destruct (Rle_dec t 0) as [H0 | H0].
  - rewrite quinticPath_before by assumption.
    assert (t / T <= 0).
    { unfold Rdiv. assert (0 < / T) by (apply Rinv_0_lt_compat; lra). nra. }
    rewrite Rmax_left by lra. rewrite Rmin_right by lra. symmetry. apply quintic_0.
  - destruct (Rle_dec T t) as [H1 | H1].
    + rewrite quinticPath_after by lra.
      assert (1 <= t / T).
      { apply (Rmult_le_reg_r T); [assumption |].
        replace (t / T * T) with t by (field; lra). lra. }
      rewrite Rmax_right by lra. rewrite Rmin_left by lra. symmetry. apply quintic_1.
    + rewrite quinticPath_inside by lra.
      pose proof (ratio_inside t T). 
      rewrite Rmax_right by lra. rewrite Rmin_right by lra. reflexivity.
Qed.

Lemma ratio_monotone (t1 t2 T : R) : 0 < T -> t1 <= t2 -> t1 / T <= t2 / T.
Proof.
  intros HT H12. assert (0 < / T) by (apply Rinv_0_lt_compat; lra).
  unfold Rdiv. apply Rmult_le_compat_r; lra.
Qed.

Lemma clamp_bounds (x : R) : 0 <= Rmin 1 (Rmax 0 x) <= 1.
Proof.
  unfold Rmax. destruct (Rle_dec 0 x); unfold Rmin; destruct (Rle_dec _ _); lra.
Qed.

Lemma clamp_rate (x y : R) :
  x <= y ->
  Rmin 1 (Rmax 0 x) <= Rmin 1 (Rmax 0 y) /\
  Rmin 1 (Rmax 0 y) - Rmin 1 (Rmax 0 x) <= y - x.
Proof.
  intros Hxy. unfold Rmax.
  destruct (Rle_dec 0 x); destruct (Rle_dec 0 y); unfold Rmin;
    repeat destruct (Rle_dec _ _); lra.
Qed.

Lemma quinticPath_rate (t1 t2 T : R) :
  0 < T -> t1 <= t2 ->
  quinticPath t2 T - quinticPath t1 T <= 15 / 8 * ((t2 - t1) / T).
Proof.
  intros HT H12.
  rewrite !quinticPath_clamped by assumption.
  pose proof (ratio_monotone t1 t2 T HT H12) as Hratio.
  destruct (clamp_rate (t1 / T) (t2 / T) Hratio) as [Hmono Hstep].
  pose proof (clamp_bounds (t1 / T)) as [Hlow _].
  pose proof (clamp_bounds (t2 / T)) as [_ Hhigh].
  pose proof (quintic_rate _ _ Hlow Hmono Hhigh) as Hrate.
  replace ((t2 - t1) / T) with (t2 / T - t1 / T) by (field; lra).
  lra.
Qed.

(** X3. The profile depends only on the ratio of its arguments: scaling
    elapsed time and duration by the same positive factor leaves it
    unchanged. *)
Theorem quinticPath_scale (k t T : R) :
  0 < k -> quinticPath (k * t) (k * T) = quinticPath t T.
Proof.
  intros Hk.
  destruct (Rle_dec t 0) as [H0 | H0].
  - rewrite !quinticPath_before by nra. reflexivity.
  - destruct (Rle_dec T t) as [H1 | H1].
    + rewrite !quinticPath_after by nra. reflexivity.
    + rewrite !quinticPath_inside by nra.
      replace (k * t / (k * T)) with (t / T) by (field; lra). reflexivity.
Qed.

Lemma quinticPath_scale_witness :
  0 < 1000 /\ quinticPath (1000 * (1 / 2)) (1000 * 2) = quinticPath (1 / 2) 2.
Proof. split; [lra |]. apply quinticPath_scale. lra. Defined.

(** ** The critical joint and the warning *)

(** What the scan holds after the first [n] axes: the largest
    displacement so far, and either no axis yet (all displacements zero)
    or the first axis that attains it. *)
Lemma scan_prefix (q_start q_end : joints) (n : nat) :
  let d := displacement q_start q_end in
  let m := fst (fold_left (scan_joint q_start q_end) (seq 0 n) (0, (-1)%Z)) in
  let c := snd (fold_left (scan_joint q_start q_end) (seq 0 n) (0, (-1)%Z)) in
  (forall j, (j < n)%nat -> d j <= m) /\
  ((c = (-1)%Z /\ m = 0) \/
   (exists k, c = Z.of_nat k /\ (k < n)%nat /\ d k = m /\ 0 < m /\
              forall j, (j < k)%nat -> d j < m)).
Proof.
  intros d. induction n as [| n IH].
  - simpl. split; [intros j Hj; lia | left; split; reflexivity].
  - rewrite seq_S, fold_left_app. simpl fold_left.
    destruct (fold_left (scan_joint q_start q_end) (seq 0 n) (0, (-1)%Z))
      as [m c].
    simpl in IH. destruct IH as [Hall Hcrit].
    unfold scan_joint. fold (displacement q_start q_end n). fold d.
    assert (Hm : 0 <= m).
    { destruct Hcrit as [[_ ->] | (k & _ & _ & _ & Hpos & _)]; lra. }
    destruct (Rgt_dec (d n) m) as [Hgt | Hle]; simpl.
    + split.
      * intros j Hj. destruct (Nat.eq_dec j n) as [-> | Hne]; [lra |].
        specialize (Hall j). assert (d j <= m) by (apply Hall; lia). lra.
      * right. exists n. split; [reflexivity |]. split; [lia |].
        split; [reflexivity |]. split; [lra |].
        intros j Hj. specialize (Hall j Hj). lra.
    + split.
      * intros j Hj. destruct (Nat.eq_dec j n) as [-> | Hne]; [lra |].
        apply Hall. lia.
      * destruct Hcrit as [Hnone | (k & Hc & Hk & Hdk & Hpos & Hfirst)];
          [left; assumption |].
        right. exists k. repeat split; try assumption. lia.
Qed.

(** X5. When a warning is printed for a move that changes some joint, the
    joint it names (counted from 1) is the first axis whose displacement
    is the largest.  When start and target coincide and the request is
    negative, the warning names joint 0, which no robot has. *)
Theorem getSafeMovementTime_names_first_largest
    (q_start q_target : joints) (desired_time safe : R) (w : SpeedWarning) :
  getSafeMovementTime q_start q_target desired_time = (safe, Some w) ->
  let d := displacement q_start q_target in
  (0 < maxDelta q_start q_target ->
   exists k, joint_number w = (Z.of_nat k + 1)%Z /\ (k < 7)%nat /\
             d k = maxDelta q_start q_target /\
             forall j, (j < k)%nat -> d j < d k) /\
  (maxDelta q_start q_target = 0 ->
   joint_number w = 0%Z /\ desired_time < 0 /\ safe = 0).
Proof.
  intros Hcall d.
  pose proof (scan_prefix q_start q_target 7) as Hscan.
  pose proof (scan_joints_maxDelta q_start q_target) as Hmax.
  unfold getSafeMovementTime in Hcall. unfold scan_joints in *.
  change Array7.indices with (seq 0 7) in *.
  destruct (fold_left (scan_joint q_start q_target) (seq 0 7) (0, (-1)%Z))
    as [m c].
  simpl in Hscan, Hmax. subst m. fold d in Hscan.
  destruct Hscan as [_ Hcrit].
  destruct (Rge_dec desired_time (maxDelta q_start q_target / MAX_JOINT_VELOCITY))
    as [Hge | Hlt]; [discriminate |].
  injection Hcall as Hsafe Hw. subst w. simpl.
  unfold MAX_JOINT_VELOCITY in *.
  split.
  - intros Hpos.
    destruct Hcrit as [[_ Hzero] | (k & -> & Hk & Hdk & _ & Hfirst)]; [lra |].
    exists k. split; [reflexivity |]. split; [assumption |].
    split; [assumption |].
    intros j Hj. rewrite Hdk. apply Hfirst. assumption.
  - intros Hzero.
    destruct Hcrit as [[-> _] | (k & _ & _ & _ & Hpos & _)]; [| lra].
    split; [reflexivity |]. rewrite Hzero in *. split; lra.
Qed.

Lemma getSafeMovementTime_names_first_largest_witness :
  exists safe w,
    getSafeMovementTime scenario_start scenario_target (1 / 10) = (safe, Some w) /\
    joint_number w = 1%Z.
Proof.
  destruct (getSafeMovementTime_unfold scenario_start scenario_target (1 / 10))
    as [c Hw].
  cbv zeta in Hw. unfold MAX_JOINT_VELOCITY in Hw.
  destruct (Rge_dec (1 / 10) (maxDelta scenario_start scenario_target / 2));
    [rewrite scenario_maxDelta in *; lra |].
  eexists. eexists. split; [exact Hw |].
  destruct (getSafeMovementTime_names_first_largest _ _ _ _ _ Hw) as [Hfirst _].
  destruct Hfirst as (k & Hjoint & Hk & Hdk & _); [rewrite scenario_maxDelta; lra |].
  rewrite Hjoint.
  destruct k as [| k]; [reflexivity |].
  exfalso. rewrite scenario_maxDelta in Hdk.
  unfold displacement, scenario_start, scenario_target in Hdk.
  do 6 (destruct k as [| k];
        [simpl in Hdk; replace (0 - 0) with 0 in Hdk by lra;
         rewrite Rabs_R0 in Hdk; lra |]).
  lia.
Defined.

Lemma maxDelta_sym (q_a q_b : joints) : maxDelta q_a q_b = maxDelta q_b q_a.
Proof.
  unfold maxDelta, displacement.
  rewrite !(Rabs_minus_sym (Array7.get q_b _) (Array7.get q_a _)). reflexivity.
Qed.

(** X6. The way back takes as long as the way out: swapping start and
    target does not change the safe duration. *)
Theorem safe_duration_symmetric (q_a q_b : joints) (desired_time : R) :
  safe_duration_of q_a q_b desired_time = safe_duration_of q_b q_a desired_time.
Proof. rewrite !safe_duration_of_max, maxDelta_sym. reflexivity. Qed.

(** X7. A warning is printed exactly when the returned duration differs
    from the requested one. *)
Theorem getSafeMovementTime_warns_iff_stretched
    (q_start q_target : joints) (desired_time : R) :
  snd (getSafeMovementTime q_start q_target desired_time) = None <->
  fst (getSafeMovementTime q_start q_target desired_time) = desired_time.
Proof.
  destruct (getSafeMovementTime_unfold q_start q_target desired_time) as [c ->].
  cbv zeta. destruct (Rge_dec _ _) as [Hge | Hlt]; simpl.
  - split; reflexivity.
  - split; [discriminate | intros Heq; lra].
Qed.

(** X8. The safe duration grows with the request, and a duration the
    function has returned is accepted unchanged and without a warning
    when requested again. *)
Theorem safe_duration_monotone_idempotent
    (q_start q_target : joints) (d1 d2 : R) :
  (d1 <= d2 ->
   safe_duration_of q_start q_target d1 <= safe_duration_of q_start q_target d2) /\
  getSafeMovementTime q_start q_target (safe_duration_of q_start q_target d1)
  = (safe_duration_of q_start q_target d1, None).
Proof.
  split.
  - intros H12. rewrite !safe_duration_of_max.
    apply Rmax_lub; [| apply Rmax_r].
    pose proof (Rmax_l d2 (maxDelta q_start q_target / MAX_JOINT_VELOCITY)). lra.
  - destruct (getSafeMovementTime_unfold q_start q_target
                (safe_duration_of q_start q_target d1)) as [c ->].
    cbv zeta.
    pose proof (Rmax_r d1 (maxDelta q_start q_target / MAX_JOINT_VELOCITY)) as Hr.
    rewrite <- safe_duration_of_max in Hr.
    destruct (Rge_dec _ _); [reflexivity | lra].
Qed.

Lemma safe_duration_monotone_idempotent_witness :
  1 / 10 <= 10 /\
  safe_duration_of scenario_start scenario_target (1 / 10)
  <= safe_duration_of scenario_start scenario_target 10.
Proof.
  split; [lra |].
  apply (proj1 (safe_duration_monotone_idempotent scenario_start scenario_target
                  (1 / 10) 10)). lra.
Defined.

(** ** Commands of the control loop *)

Lemma safe_duration_nonneg (q_start q_target : joints) (desired_time : R) :
  0 <= safe_duration_of q_start q_target desired_time /\
  maxDelta q_start q_target / 2 <= safe_duration_of q_start q_target desired_time.
Proof.
  rewrite safe_duration_of_max. unfold MAX_JOINT_VELOCITY.
  pose proof (Rmax_r desired_time (maxDelta q_start q_target / 2)).
  pose proof (maxDelta_nonneg q_start q_target). lra.
Qed.

(** X11. A cycle whose accumulated time is still zero (or less) commands
    the start configuration: the motion begins without a jump. *)
Theorem first_command_is_start (q_start q_target : joints)
    (safe_duration elapsed dt : R) (i : nat) :
  elapsed + dt <= 0 -> (i < 7)%nat ->
  Array7.get (q (snd (control_step q_start q_target safe_duration elapsed dt))) i
  = Array7.get q_start i.
Proof.
  intros Hzero Hi.
  destruct (control_step_command q_start q_target safe_duration elapsed dt)
    as (q_desired & -> & Hq).
  simpl. rewrite (Hq i Hi). unfold interpolate.
  rewrite quinticPath_before by assumption. ring.
Qed.

Lemma first_command_is_start_witness :
  0 + 0 <= 0 /\ (0 < 7)%nat /\
  Array7.get (q (snd (control_step scenario_start scenario_target (1 / 2) 0 0))) 0 = 0.
Proof.
  split; [lra |]. split; [lia |].
  apply (first_command_is_start scenario_start scenario_target (1 / 2) 0 0 0); [lra | lia].
Defined.

(** X12. With the duration [getSafeMovementTime] returns, two successive
    commands differ on each axis by at most [3.75] rad per second of
    period: the commanded speed stays within 15/8 of
    [MAX_JOINT_VELOCITY]. *)
Theorem commanded_speed_bound (q_start q_target : joints)
    (desired_time elapsed dt1 dt2 : R) (i : nat) :
  let safe_duration := safe_duration_of q_start q_target desired_time in
  let first := control_step q_start q_target safe_duration elapsed dt1 in
  let second := control_step q_start q_target safe_duration (fst first) dt2 in
  0 <= dt2 -> (i < 7)%nat ->
  Rabs (Array7.get (q (snd second)) i - Array7.get (q (snd first)) i)
  <= 15 / 8 * MAX_JOINT_VELOCITY * dt2.
Proof.
  intros safe_duration first second Hdt Hi. unfold second, first.
  destruct (control_step_command q_start q_target safe_duration elapsed dt1)
    as (q1 & -> & Hq1).
  cbn [fst snd q].
  destruct (control_step_command q_start q_target safe_duration (elapsed + dt1) dt2)
    as (q2 & -> & Hq2).
  cbn [fst snd q].
  rewrite (Hq1 i Hi), (Hq2 i Hi). unfold interpolate, MAX_JOINT_VELOCITY.
  set (t2 := elapsed + dt1 + dt2). set (t1 := elapsed + dt1).
  set (delta := Array7.get q_target i - Array7.get q_start i).
  replace (Array7.get q_start i + quinticPath t2 safe_duration * delta
           - (Array7.get q_start i + quinticPath t1 safe_duration * delta))
    with ((quinticPath t2 safe_duration - quinticPath t1 safe_duration) * delta)
    by ring.
  assert (H12 : t1 <= t2) by (unfold t1, t2; lra).
  pose proof (quinticPath_monotone safe_duration t1 t2 H12) as Hmono.
  rewrite Rabs_mult. rewrite (Rabs_right (_ - _)) by lra.
  pose proof (maxDelta_bound q_start q_target i Hi) as Hbound.
  unfold displacement in Hbound. fold delta in Hbound.
  destruct (safe_duration_nonneg q_start q_target desired_time) as [Hnn Hhalf].
  fold safe_duration in Hnn, Hhalf.
  pose proof (Rabs_pos delta) as Hpos.
  destruct (Req_dec_T safe_duration 0) as [Hzero | Hnz].
  - assert (Rabs delta = 0) by lra. rewrite H. lra.
  - assert (HT : 0 < safe_duration) by lra.
    pose proof (quinticPath_rate t1 t2 safe_duration HT H12) as Hrate.
    replace (t2 - t1) with dt2 in Hrate by (unfold t1, t2; ring).
    assert (Hr : 0 <= dt2 / safe_duration).
    { unfold Rdiv. apply Rmult_le_pos; [lra |].
      left. apply Rinv_0_lt_compat. assumption. }
    assert (Hstep : (quinticPath t2 safe_duration - quinticPath t1 safe_duration)
                    * Rabs delta
                    <= 15 / 8 * (dt2 / safe_duration) * (2 * safe_duration)).
    { apply Rmult_le_compat; lra. }
    replace (15 / 8 * (dt2 / safe_duration) * (2 * safe_duration))
      with (15 / 8 * 2 * dt2) in Hstep by (field; lra).
    exact Hstep.
Qed.

Lemma commanded_speed_bound_witness :
  0 <= 1 / 1000 /\ (0 < 7)%nat /\
  Rabs (Array7.get
          (q (snd (control_step scenario_start scenario_target
                     (safe_duration_of scenario_start scenario_target (1 / 10))
                     (fst (control_step scenario_start scenario_target
                             (safe_duration_of scenario_start scenario_target (1 / 10))
                             (1 / 4) 0))
                     (1 / 1000)))) 0
        - Array7.get
            (q (snd (control_step scenario_start scenario_target
                       (safe_duration_of scenario_start scenario_target (1 / 10))
                       (1 / 4) 0))) 0)
  <= 15 / 8 * MAX_JOINT_VELOCITY * (1 / 1000).
Proof.
  split; [lra |]. split; [lia |].
  apply (commanded_speed_bound scenario_start scenario_target (1 / 10)
           (1 / 4) 0 (1 / 1000) 0); [lra | lia].
Defined.

Lemma control_outcome (q_start q_target : joints) (safe_duration : R)
    (periods : list R) :
  forall time_total,
    let run := control (control_step q_start q_target safe_duration)
                 time_total periods in
    (length (fst run) <= length periods)%nat /\
    (snd run = true <->
     exists n, (n < length periods)%nat /\
               elapsed_from time_total periods (S n) >= finish_time safe_duration) /\
    (snd run = false ->
     length (fst run) = length periods /\
     Forall (fun command => motion_finished command = false) (fst run)) /\
    (snd run = true ->
     exists sent last,
       fst run = sent ++ [last] /\ motion_finished last = true /\
       Forall (fun command => motion_finished command = false) sent).
Proof.
  induction periods as [| period rest IH]; intros time_total run.
  - unfold run. simpl. split; [lia |]. split.
    + split; [discriminate | intros (n & Hn & _); lia].
    + split; [intros _; split; [reflexivity | constructor] | discriminate].
  - unfold run. simpl control.
    destruct (control_step_command q_start q_target safe_duration time_total period)
      as (q_desired & -> & _).
    cbn [motion_finished].
    destruct (Rge_dec (time_total + period) (finish_time safe_duration)) as [Hge | Hlt].
    + cbn [fst snd length]. split; [lia |]. split.
      * split; [| reflexivity]. intros _. exists 0%nat. split; [lia |].
        rewrite elapsed_from_cons. exact Hge.
      * split; [discriminate |]. intros _.
        exists [], (mkJointPositions q_desired true).
        split; [reflexivity |]. split; [reflexivity | constructor].
    + specialize (IH (time_total + period)). cbv zeta in IH.
      destruct (control (control_step q_start q_target safe_duration)
                  (time_total + period) rest) as [sent ok].
      cbn [fst snd length] in *.
      destruct IH as (Hlen & Hiff & Hfalse & Htrue).
      split; [lia |]. split.
      * rewrite Hiff. split.
        -- intros (n & Hn & Hreach). exists (S n). split; [lia |].
           rewrite elapsed_from_cons. exact Hreach.
        -- intros (n & Hn & Hreach). destruct n as [| n].
           ++ rewrite elapsed_from_cons in Hreach.
              unfold elapsed_from in Hreach. simpl in Hreach. lra.
           ++ exists n. split; [lia |].
              rewrite elapsed_from_cons in Hreach. exact Hreach.
      * split.
        -- intros Hok. destruct (Hfalse Hok) as [Hl Hall].
           split; [lia | constructor; [reflexivity | assumption]].
        -- intros Hok. destruct (Htrue Hok) as (sent' & last & -> & Hlast & Hall).
           exists (mkJointPositions q_desired false :: sent'), last.
           split; [reflexivity |]. split; [assumption |].
           constructor; [reflexivity | assumption].
Qed.

(** X13. The control loop returns normally exactly when some cycle
    brings the accumulated time to [safe_duration * 1.01]; then the last
    command, and only the last, carries [motion_finished].  Otherwise
    every cycle was commanded, none flagged, and the loop ends in the
    runtime's exception.  It never runs more cycles than the runtime
    offers. *)
Theorem control_returns_iff_threshold_reached (q_start q_target : joints)
    (safe_duration time_total : R) (periods : list R) :
  let run := control (control_step q_start q_target safe_duration)
               time_total periods in
  (length (fst run) <= length periods)%nat /\
  (snd run = true <->
   exists n, (n < length periods)%nat /\
             elapsed_from time_total periods (S n) >= safe_duration * (101 / 100)) /\
  (snd run = false ->
   length (fst run) = length periods /\
   Forall (fun command => motion_finished command = false) (fst run)) /\
  (snd run = true ->
   exists sent last,
     fst run = sent ++ [last] /\ motion_finished last = true /\
     Forall (fun command => motion_finished command = false) sent).
Proof. apply control_outcome. Qed.

Lemma control_returns_iff_threshold_reached_witness :
  snd (control (control_step scenario_start scenario_target (1 / 2)) 0 [1 / 4; 1 / 8])
  = false /\
  length (fst (control (control_step scenario_start scenario_target (1 / 2)) 0
                 [1 / 4; 1 / 8])) = 2%nat.
Proof.
  destruct (control_returns_iff_threshold_reached scenario_start scenario_target
              (1 / 2) 0 [1 / 4; 1 / 8]) as (_ & Hiff & Hfalse & _).
  assert (Hfault : snd (control (control_step scenario_start scenario_target (1 / 2)) 0
                          [1 / 4; 1 / 8]) = false).
  { destruct (snd (control (control_step scenario_start scenario_target (1 / 2)) 0
                     [1 / 4; 1 / 8])); [| reflexivity].
    destruct (proj1 Hiff eq_refl) as (n & Hn & Hreach).
    exfalso. unfold elapsed_from in Hreach.
    destruct n as [| [| n]]; simpl in Hn, Hreach; [lra | lra | lia]. }
  split; [exact Hfault |]. apply (Hfalse Hfault).
Defined.

(** ** What a finished move leaves behind *)

Lemma try_motion_success (robot : Robot) (w w' : World) (q_target : joints)
    (desired_duration actual : R) :
  try_motion robot w q_target desired_duration = (Some actual, w') ->
  exists q_current warning sent last,
    read_once (attempt robot (attempts_made w)) = Some q_current /\
    actual = wall_clock (attempt robot (attempts_made w)) /\
    log w' =
    log w
    ++ [EvReadOnce q_current;
        EvSafeDuration desired_duration
          (safe_duration_of q_current q_target desired_duration) warning]
    ++ map EvCommand sent
    ++ [EvCommand last; EvMoveCompleted desired_duration actual; EvSleepMs 100] /\
    Forall (fun command => motion_finished command = false) sent /\
    motion_finished last = true.
Proof.
  unfold try_motion. intros Htry.
  destruct (read_once (attempt robot (attempts_made w))) as [q_current |] eqn:Hread;
    [| discriminate].
  pose proof (control_outcome q_current q_target
                (safe_duration_of q_current q_target desired_duration)
                (cycles (attempt robot (attempts_made w))) 0) as Hout.
  unfold safe_duration_of in Hout.
  destruct (getSafeMovementTime q_current q_target desired_duration)
    as [safe_duration warning] eqn:Hsafe.
  cbn [fst] in Hout. cbv zeta in Hout.
  destruct (control (control_step q_current q_target safe_duration) 0
              (cycles (attempt robot (attempts_made w)))) as [sent_all ok].
  cbn [fst snd] in Hout.
  destruct ok; [| discriminate].
  injection Htry as Hactual Hw'. subst w'.
  destruct Hout as (_ & _ & _ & Hshape).
  destruct (Hshape eq_refl) as (sent & last & -> & Hlast & Hsent).
  exists q_current, warning, sent, last.
  split; [reflexivity |]. split; [symmetry; exact Hactual |].
  split.
  { unfold safe_duration_of. rewrite Hsafe. simpl.
    rewrite map_app, Hactual. simpl. rewrite <- !app_assoc. reflexivity. }
  split; [exact Hsent | exact Hlast].
Qed.

Lemma try_motion_extends (robot : Robot) (w : World) (q_target : joints)
    (desired_duration : R) :
  exists events,
    log (snd (try_motion robot w q_target desired_duration)) = log w ++ events.
Proof.
  unfold try_motion.
  destruct (read_once _); [| exists []; simpl; rewrite app_nil_r; reflexivity].
  destruct (getSafeMovementTime _ _ _) as [safe_duration warning].
  destruct (control _ _ _) as [sent ok].
  destruct ok; simpl; rewrite <- !app_assoc; eexists; reflexivity.
Qed.

Lemma recoverRobot_extends (robot : Robot) (w : World) :
  exists events, log (recoverRobot robot w) = log w ++ events.
Proof.
  unfold recoverRobot. destruct (recovery _ _); simpl; eexists; reflexivity.
Qed.

Lemma moveJoints_success (robot : Robot) (q_target : joints)
    (desired_duration : R) (recover_on_error : bool) :
  forall (w w' : World) (result : R),
  moveJoints robot w q_target desired_duration recover_on_error = (result, w') ->
  result <> -1 ->
  exists before q_current warning sent last,
    log w' =
    (log w ++ before)
    ++ [EvReadOnce q_current;
        EvSafeDuration desired_duration
          (safe_duration_of q_current q_target desired_duration) warning]
    ++ map EvCommand sent
    ++ [EvCommand last; EvMoveCompleted desired_duration result; EvSleepMs 100] /\
    Forall (fun command => motion_finished command = false) sent /\
    motion_finished last = true.
Proof.
  assert (Hflat : forall w w' result,
            moveJoints robot w q_target desired_duration false = (result, w') ->
            result <> -1 ->
            exists q_current warning sent last,
              log w' =
              (log w ++ [])
              ++ [EvReadOnce q_current;
                  EvSafeDuration desired_duration
                    (safe_duration_of q_current q_target desired_duration) warning]
              ++ map EvCommand sent
              ++ [EvCommand last; EvMoveCompleted desired_duration result;
                  EvSleepMs 100] /\
              Forall (fun command => motion_finished command = false) sent /\
              motion_finished last = true).
  { intros w w' result Hmove Hok.
    destruct (try_motion robot w q_target desired_duration) as [[actual |] w1] eqn:Htry.
    - rewrite (moveJoints_done _ _ _ _ _ _ _ Htry) in Hmove.
      injection Hmove as -> ->.
      destruct (try_motion_success _ _ _ _ _ _ Htry)
        as (q_current & warning & sent & last & _ & _ & Hlog & Hrest).
      exists q_current, warning, sent, last.
      rewrite app_nil_r. split; [exact Hlog | exact Hrest].
    - rewrite (moveJoints_give_up _ _ _ _ _ Htry) in Hmove.
      injection Hmove as <- _. contradiction. }
  intros w w' result Hmove Hok.
  destruct recover_on_error.
  - destruct (try_motion robot w q_target desired_duration) as [[actual |] w1] eqn:Htry.
    + rewrite (moveJoints_done _ _ _ _ _ _ _ Htry) in Hmove.
      injection Hmove as -> ->.
      destruct (try_motion_success _ _ _ _ _ _ Htry)
        as (q_current & warning & sent & last & _ & _ & Hlog & Hrest).
      exists [], q_current, warning, sent, last.
      rewrite app_nil_r. split; [exact Hlog | exact Hrest].
    + rewrite (moveJoints_retry _ _ _ _ _ Htry) in Hmove.
      destruct (Hflat _ _ _ Hmove Hok)
        as (q_current & warning & sent & last & Hlog & Hrest).
      pose proof (try_motion_extends robot w q_target desired_duration) as [ev1 Hev1].
      rewrite Htry in Hev1. simpl in Hev1.
      destruct (recoverRobot_extends robot (emit w1 [EvException; EvRetrying]))
        as [ev2 Hev2].
      simpl in Hev2. rewrite Hev2, Hev1 in Hlog.
      exists ((ev1 ++ [EvException; EvRetrying]) ++ ev2), q_current, warning, sent, last.
      split; [| exact Hrest].
      rewrite Hlog. rewrite app_nil_r. rewrite !app_assoc. reflexivity.
  - destruct (Hflat _ _ _ Hmove Hok)
      as (q_current & warning & sent & last & Hlog & Hrest).
    exists [], q_current, warning, sent, last. split; [exact Hlog | exact Hrest].
Qed.

(** X14. Whenever [moveJoints] returns anything but [-1.0], the attempt
    that succeeded read the joint state, computed the safe duration from
    it and sent commands of which the last, and only the last, carried
    [motion_finished]; the move ends with the completion report and the
    100 ms settling pause, and what had been logged before is kept. *)
Theorem moveJoints_success_ends_at_target (robot : Robot) (w w' : World)
    (q_target : joints) (desired_duration result : R) (recover_on_error : bool) :
  moveJoints robot w q_target desired_duration recover_on_error = (result, w') ->
  result <> -1 ->
  exists before q_current warning sent last,
    log w' =
    (log w ++ before)
    ++ [EvReadOnce q_current;
        EvSafeDuration desired_duration
          (safe_duration_of q_current q_target desired_duration) warning]
    ++ map EvCommand sent
    ++ [EvCommand last; EvMoveCompleted desired_duration result; EvSleepMs 100] /\
    Forall (fun command => motion_finished command = false) sent /\
    motion_finished last = true.
Proof. apply moveJoints_success. Qed.

Lemma moveJoints_success_ends_at_target_witness :
  exists w',
    moveJoints steady_robot initial_world scenario_target (-1) true = (3 / 4, w') /\
    3 / 4 <> -1 /\
    exists before q_current warning sent last,
      log w' =
      (log initial_world ++ before)
      ++ [EvReadOnce q_current;
          EvSafeDuration (-1) (safe_duration_of q_current scenario_target (-1)) warning]
      ++ map EvCommand sent
      ++ [EvCommand last; EvMoveCompleted (-1) (3 / 4); EvSleepMs 100] /\
      motion_finished last = true.
Proof.
  destruct steady_robot_negative_duration as (w' & warning0 & Hmove & _).
  exists w'. split; [exact Hmove |].
  assert (Hok : 3 / 4 <> -1) by lra.
  split; [exact Hok |].
  destruct (moveJoints_success_ends_at_target _ _ _ _ _ _ _ Hmove Hok)
    as (before & q_current & warning & sent & last & Hlog & _ & Hlast).
  exists before, q_current, warning, sent, last. split; assumption.
Defined.

(** ** The result of [moveJoints] and the bookkeeping of a move *)

Lemma try_motion_value (robot : Robot) (w w' : World) (q_target : joints)
    (desired_duration actual : R) :
  try_motion robot w q_target desired_duration = (Some actual, w') ->
  actual = wall_clock (attempt robot (attempts_made w)).
Proof.
  intros Htry.
  destruct (try_motion_success _ _ _ _ _ _ Htry) as (_ & _ & _ & _ & _ & Hactual & _).
  exact Hactual.
Qed.

(** The three ways a call with the default flag can end. *)
Lemma moveJoints_default_cases (robot : Robot) (w : World) (q_target : joints)
    (desired_duration : R) :
  let result := moveJoints_default robot w q_target desired_duration in
  let first := try_motion robot w q_target desired_duration in
  let recovered := recoverRobot robot (emit (snd first) [EvException; EvRetrying]) in
  let retry := try_motion robot recovered q_target desired_duration in
  (fst first <> None /\
   fst result = wall_clock (attempt robot (attempts_made w)) /\
   attempts_made (snd result) = S (attempts_made w) /\
   recoveries_made (snd result) = recoveries_made w) \/
  (fst first = None /\ fst retry <> None /\
   fst result = wall_clock (attempt robot (S (attempts_made w))) /\
   attempts_made (snd result) = S (S (attempts_made w)) /\
   recoveries_made (snd result) = S (recoveries_made w)) \/
  (fst first = None /\ fst retry = None /\
   fst result = -1 /\
   attempts_made (snd result) = S (S (attempts_made w)) /\
   recoveries_made (snd result) = S (recoveries_made w)).
Proof.
  intros result first recovered retry. unfold result, moveJoints_default.
  pose proof (try_motion_counts robot w q_target desired_duration) as [Ha Hr].
  fold first in Ha, Hr.
  pose proof (recoverRobot_counts robot (emit (snd first) [EvException; EvRetrying]))
    as [Hra Hrr].
  fold recovered in Hra, Hrr. simpl in Hra, Hrr.
  pose proof (try_motion_counts robot recovered q_target desired_duration) as [Ha2 Hr2].
  fold retry in Ha2, Hr2.
  destruct first as [[actual |] w1] eqn:Hfirst.
  - left. rewrite (moveJoints_done _ _ _ _ _ _ _ Hfirst). simpl in *.
    split; [discriminate |].
    split; [exact (try_motion_value _ _ _ _ _ _ Hfirst) |]. split; assumption.
  - right. rewrite (moveJoints_retry _ _ _ _ _ Hfirst). simpl in recovered.
    fold recovered.
    destruct retry as [[actual |] w2] eqn:Hretry.
    + left. rewrite (moveJoints_done _ _ _ _ _ _ _ Hretry). simpl in *.
      split; [reflexivity |]. split; [discriminate |].
      split.
      { rewrite (try_motion_value _ _ _ _ _ _ Hretry). rewrite Hra, Ha. reflexivity. }
      split; congruence.
    + right. rewrite (moveJoints_give_up _ _ _ _ _ Hretry). simpl in *.
      split; [reflexivity |]. split; [reflexivity |].
      split; [reflexivity |]. split; congruence.
Qed.

(** X15. If the wall clock never measures a negative duration, the value
    [moveJoints] returns is negative only when it is the failure value
    [-1.0], and that happens exactly when the first attempt and the retry
    both faulted. *)
Theorem moveJoints_negative_means_failed (robot : Robot) (w : World)
    (q_target : joints) (desired_duration : R) :
  (forall n, 0 <= wall_clock (attempt robot n)) ->
  let result := moveJoints_default robot w q_target desired_duration in
  let first := try_motion robot w q_target desired_duration in
  let retry :=
    try_motion robot
      (recoverRobot robot (emit (snd first) [EvException; EvRetrying]))
      q_target desired_duration in
  (0 <= fst result \/ fst result = -1) /\
  (fst result < 0 <-> fst first = None /\ fst retry = None).
Proof.
  intros Hclock result first retry.
  destruct (moveJoints_default_cases robot w q_target desired_duration)
    as [(Hf & Hres & _) | [(Hf & Hr & Hres & _) | (Hf & Hr & Hres & _)]];
    fold result first in Hf, Hres; try fold retry in Hr.
  - pose proof (Hclock (attempts_made w)).
    split; [left; lra |]. split; [lra | intros [Hnone _]; contradiction].
  - pose proof (Hclock (S (attempts_made w))).
    split; [left; lra |]. split; [lra | intros [_ Hnone]; contradiction].
  - split; [right; assumption |]. split; [intros _; split; assumption | lra].
Qed.

Lemma moveJoints_negative_means_failed_witness :
  (forall n, 0 <= wall_clock (attempt faulty_robot n)) /\
  fst (moveJoints_default faulty_robot initial_world scenario_target 1) < 0.
Proof.
  assert (Hclock : forall n, 0 <= wall_clock (attempt faulty_robot n))
    by (intros n; simpl; lra).
  split; [exact Hclock |].
  apply (proj2 (moveJoints_negative_means_failed faulty_robot initial_world
                  scenario_target 1 Hclock)).
  split; reflexivity.
Defined.

(** ** One dance cycle *)

Lemma move_at_seq (dance_moves : list DanceMove) :
  map (move_at dance_moves) (seq 0 (length dance_moves)) = dance_moves.
Proof.
  unfold move_at. induction dance_moves as [| first rest IH]; [reflexivity |].
  simpl. f_equal. rewrite <- seq_shift, map_map. exact IH.
Qed.

Lemma move_at_next_seq (dance_moves : list DanceMove) :
  map (fun i => move_at dance_moves ((i + 1) mod length dance_moves))
    (seq 0 (length dance_moves))
  = cycle_targets dance_moves.
Proof.
  destruct dance_moves as [| first rest]; [reflexivity |].
  cbn [length cycle_targets]. rewrite seq_S, map_app. cbn [map Nat.add].
  f_equal.
  - rewrite <- (move_at_seq rest) at 2.
    apply map_ext_in. intros i Hi. apply in_seq in Hi.
    rewrite Nat.mod_small by lia.
    replace (i + 1)%nat with (S i) by lia. reflexivity.
  - replace (length rest + 1)%nat with (S (length rest)) by lia.
    rewrite Nat.Div0.mod_same. reflexivity.
Qed.

Lemma dance_step_shape (robot : Robot) (dance_moves : list DanceMove)
    (w : World) (table : list Row) (i : nat) :
  let next := move_at dance_moves ((i + 1) mod length dance_moves) in
  let result := moveJoints_default robot w (move_joints next) (move_time next) in
  dance_step robot dance_moves (w, table) i =
  (if Rlt_dec (fst result) 0 then recoverRobot robot (snd result) else snd result,
   table ++ [mkRow (move_index (move_at dance_moves i)) (move_index next)
               (move_time next)
               (if Rge_dec (fst result) 0 then Some (fst result) else None)]).
Proof.
  intros next result. unfold dance_step. fold next. fold result.
  destruct result as [actual w1]. simpl. destruct (Rlt_dec actual 0); reflexivity.
Qed.

Lemma dance_fold_rows (robot : Robot) (dance_moves : list DanceMove) (l : list nat) :
  forall w table,
  exists rows,
    snd (fold_left (dance_step robot dance_moves) l (w, table)) = table ++ rows /\
    map from_move rows = map (fun i => move_index (move_at dance_moves i)) l /\
    map to_move rows =
    map (fun i => move_index (move_at dance_moves ((i + 1) mod length dance_moves))) l /\
    map row_desired rows =
    map (fun i => move_time (move_at dance_moves ((i + 1) mod length dance_moves))) l.
Proof.
  induction l as [| i l IH]; intros w table.
  - exists []. simpl. rewrite app_nil_r. repeat split.
  - cbn [fold_left]. rewrite dance_step_shape.
    match goal with
    | |- context [fold_left _ l (?w1, table ++ [?row])] =>
        destruct (IH w1 (table ++ [row])) as (rows & Hrows & Hfrom & Hto & Hdes);
        exists (row :: rows)
    end.
    rewrite Hrows, <- app_assoc. cbn [map from_move to_move row_desired].
    rewrite Hfrom, Hto, Hdes. repeat split.
Qed.

(** X16. Whatever the robot does, one dance cycle prints one row per
    move: row [k] leaves pose [k] for the next pose of the sequence, the
    last row returning to the first pose, each with the move time of the
    pose aimed at.  A failed move does not end or shorten the cycle. *)
Theorem dance_cycle_route (robot : Robot) (dance_moves : list DanceMove)
    (w : World) (table : list Row) :
  exists rows,
    snd (dance_cycle robot dance_moves (w, table)) = table ++ rows /\
    map from_move rows = map move_index dance_moves /\
    map to_move rows = map move_index (cycle_targets dance_moves) /\
    map row_desired rows = map move_time (cycle_targets dance_moves).
Proof.
  unfold dance_cycle.
  destruct (dance_fold_rows robot dance_moves (seq 0 (length dance_moves)) w table)
    as (rows & Hrows & Hfrom & Hto & Hdes).
  exists rows. split; [exact Hrows |].
  rewrite <- (map_map (move_at dance_moves) move_index) in Hfrom.
  rewrite <- (map_map (fun i => move_at dance_moves ((i + 1) mod length dance_moves))
                move_index) in Hto.
  rewrite <- (map_map (fun i => move_at dance_moves ((i + 1) mod length dance_moves))
                move_time) in Hdes.
  rewrite move_at_seq in Hfrom. rewrite move_at_next_seq in Hto, Hdes.
  repeat split; assumption.
Qed.

Lemma dance_step_accounting (robot : Robot) (dance_moves : list DanceMove)
    (w : World) (table : list Row) (i : nat) :
  (forall n, 0 <= wall_clock (attempt robot n)) ->
  let st := dance_step robot dance_moves (w, table) i in
  exists row,
    snd st = table ++ [row] /\
    (attempts_made w + 1 <= attempts_made (fst st) <= attempts_made w + 2)%nat /\
    (recoveries_made (fst st) + attempts_made w + 1
     = recoveries_made w + attempts_made (fst st)
       + (if row_failed row then 1 else 0))%nat.
Proof.
  intros Hclock st. unfold st. rewrite dance_step_shape.
  set (next := move_at dance_moves ((i + 1) mod length dance_moves)).
  destruct (moveJoints_default_cases robot w (move_joints next) (move_time next))
    as [(_ & Hres & Ha & Hr) | [(_ & _ & Hres & Ha & Hr) | (_ & _ & Hres & Ha & Hr)]].
  - pose proof (Hclock (attempts_made w)).
    destruct (Rlt_dec _ 0); [lra |]. destruct (Rge_dec _ 0); [| lra].
    eexists. split; [reflexivity |]. cbn [fst snd row_failed row_actual]. lia.
  - pose proof (Hclock (S (attempts_made w))).
    destruct (Rlt_dec _ 0); [lra |]. destruct (Rge_dec _ 0); [| lra].
    eexists. split; [reflexivity |]. cbn [fst snd row_failed row_actual]. lia.
  - destruct (Rlt_dec _ 0); [| lra]. destruct (Rge_dec _ 0); [lra |].
    eexists. split; [reflexivity |]. cbn [fst snd row_failed row_actual].
    destruct (recoverRobot_counts robot
                (snd (moveJoints_default robot w (move_joints next) (move_time next))))
      as [Hra Hrr].
    lia.
Qed.

Lemma dance_fold_accounting (robot : Robot) (dance_moves : list DanceMove)
    (l : list nat) :
  (forall n, 0 <= wall_clock (attempt robot n)) ->
  forall w table,
  let st := fold_left (dance_step robot dance_moves) l (w, table) in
  exists rows,
    snd st = table ++ rows /\
    length rows = length l /\
    (attempts_made w + length l <= attempts_made (fst st)
     <= attempts_made w + 2 * length l)%nat /\
    (recoveries_made (fst st) + attempts_made w + length l
     = recoveries_made w + attempts_made (fst st)
       + length (filter row_failed rows))%nat.
Proof.
  intros Hclock. induction l as [| i l IH]; intros w table st.
  - exists []. unfold st. simpl. rewrite app_nil_r. repeat split; lia.
  - unfold st. cbn [fold_left].
    destruct (dance_step_accounting robot dance_moves w table i Hclock)
      as (row & Hrow & Hatt & Hrec).
    destruct (dance_step robot dance_moves (w, table) i) as [w1 table1].
    cbn [fst snd] in Hrow, Hatt, Hrec. subst table1.
    destruct (IH w1 (table ++ [row])) as (rows & Hrows & Hlen & Hatt' & Hrec').
    exists (row :: rows). rewrite Hrows, <- app_assoc.
    split; [reflexivity |]. cbn [length filter].
    split; [lia |]. split; [lia |].
    destruct (row_failed row); cbn [length]; lia.
Qed.

(** X17. If the wall clock never measures a negative duration, a dance
    cycle over [n] moves makes between [n] and [2n] motion attempts, and
    the recoveries it triggers are exactly one per retried move plus one
    more per move reported [FAILED]. *)
Theorem dance_cycle_accounting (robot : Robot) (dance_moves : list DanceMove)
    (w : World) (table : list Row) :
  (forall n, 0 <= wall_clock (attempt robot n)) ->
  let st := dance_cycle robot dance_moves (w, table) in
  let n := length dance_moves in
  exists rows,
    snd st = table ++ rows /\
    length rows = n /\
    (attempts_made w + n <= attempts_made (fst st) <= attempts_made w + 2 * n)%nat /\
    (recoveries_made (fst st) + attempts_made w + n
     = recoveries_made w + attempts_made (fst st)
       + length (filter row_failed rows))%nat.
Proof.
  intros Hclock st n. unfold st, dance_cycle.
  destruct (dance_fold_accounting robot dance_moves (seq 0 (length dance_moves))
              Hclock w table) as (rows & Hrows & Hlen & Hatt & Hrec).
  rewrite length_seq in Hlen, Hatt, Hrec.
  exists rows. repeat split; assumption || lia.
Qed.

Lemma dance_cycle_accounting_witness :
  (forall n, 0 <= wall_clock (attempt faulty_robot n)) /\
  exists rows,
    snd (dance_cycle faulty_robot example_moves (initial_world, [])) = [] ++ rows /\
    length rows = 2%nat /\
    (attempts_made (fst (dance_cycle faulty_robot example_moves (initial_world, [])))
     <= 4)%nat.
Proof.
  assert (Hclock : forall n, 0 <= wall_clock (attempt faulty_robot n))
    by (intros n; simpl; lra).
  split; [exact Hclock |].
  destruct (dance_cycle_accounting faulty_robot example_moves initial_world [] Hclock)
    as (rows & Hrows & Hlen & Hatt & _).
  exists rows. split; [exact Hrows |]. split; [exact Hlen |].
  simpl in Hatt. lia.
Defined.

(** ** The repeat loop and [main] *)

Lemma dance_loop_result (robot : Robot) (dance_moves : list DanceMove)
    (answers : nat -> ascii) (fuel : nat) :
  forall cycle st final,
    dance_loop fuel robot dance_moves answers cycle st = Some final ->
    exists k,
      (k < fuel)%nat /\
      declines (answers (cycle + k)%nat) = true /\
      (forall j, (j < k)%nat -> declines (answers (cycle + j)%nat) = false) /\
      final = Nat.iter (S k) (dance_cycle robot dance_moves) st.
Proof.
  induction fuel as [| fuel IH]; intros cycle st final Hloop; [discriminate |].
  cbn [dance_loop] in Hloop.
  destruct (declines (answers cycle)) eqn:Hanswer.
  - injection Hloop as <-. exists 0%nat.
    rewrite Nat.add_0_r. split; [lia |]. split; [exact Hanswer |].
    split; [intros j Hj; lia | reflexivity].
  - destruct (IH _ _ _ Hloop) as (k & Hk & Hstop & Hbefore & Hfinal).
    exists (S k). split; [lia |].
    split; [rewrite Nat.add_succ_r; exact Hstop |].
    split.
    + intros j Hj. destruct j as [| j]; [rewrite Nat.add_0_r; exact Hanswer |].
      rewrite Nat.add_succ_r. apply Hbefore. lia.
    + rewrite Hfinal. rewrite (Nat.iter_succ_r (S k)). reflexivity.
Qed.

Lemma dance_loop_enough_fuel (robot : Robot) (dance_moves : list DanceMove)
    (answers : nat -> ascii) (k : nat) :
  forall cycle st fuel,
    (forall j, (j < k)%nat -> declines (answers (cycle + j)%nat) = false) ->
    declines (answers (cycle + k)%nat) = true ->
    (k < fuel)%nat ->
    dance_loop fuel robot dance_moves answers cycle st
    = Some (Nat.iter (S k) (dance_cycle robot dance_moves) st).
Proof.
  induction k as [| k IH]; intros cycle st fuel Hbefore Hstop Hfuel;
    (destruct fuel as [| fuel]; [lia |]); cbn [dance_loop].
  - rewrite Nat.add_0_r in Hstop. rewrite Hstop. reflexivity.
  - assert (Hfirst : declines (answers cycle) = false).
    { specialize (Hbefore 0%nat). rewrite Nat.add_0_r in Hbefore.
      apply Hbefore. lia. }
    rewrite Hfirst.
    rewrite (IH (S cycle) (dance_cycle robot dance_moves st) fuel).
    + rewrite (Nat.iter_succ_r (S k)). reflexivity.
    + intros j Hj. specialize (Hbefore (S j)).
      rewrite Nat.add_succ_r in Hbefore. apply Hbefore. lia.
    + rewrite Nat.add_succ_r in Hstop. exact Hstop.
    + lia.
Qed.

(** X18. The dance repeats until the first answer that is neither [y]
    nor [Y]: if that is answer number [k], the loop runs exactly [k + 1]
    cycles, for every bound on the cycles larger than [k], and a bound of
    [k] or less is not enough to see it end. *)
Theorem dance_loop_stops_at_first_decline (robot : Robot)
    (dance_moves : list DanceMove) (answers : nat -> ascii)
    (k fuel : nat) (st : World * list Row) :
  (forall j, (j < k)%nat -> declines (answers j) = false) ->
  declines (answers k) = true ->
  ((k < fuel)%nat ->
   dance_loop fuel robot dance_moves answers 0 st
   = Some (Nat.iter (S k) (dance_cycle robot dance_moves) st)) /\
  ((fuel <= k)%nat -> dance_loop fuel robot dance_moves answers 0 st = None).
Proof.
  intros Hbefore Hstop. split.
  - intros Hfuel. apply dance_loop_enough_fuel; assumption.
  - intros Hfuel.
    destruct (dance_loop fuel robot dance_moves answers 0 st) as [final |] eqn:Hloop;
      [| reflexivity].
    destruct (dance_loop_result _ _ _ _ _ _ _ Hloop) as (k' & Hk' & Hstop' & _).
    simpl in Hstop'. rewrite Hbefore in Hstop' by lia. discriminate.
Qed.

Lemma dance_loop_stops_at_first_decline_witness :
  let answers := fun n => if (n <? 2)%nat then "y"%char else "n"%char in
  (forall j, (j < 2)%nat -> declines (answers j) = false) /\
  declines (answers 2%nat) = true /\
  dance_loop 5 faulty_robot example_moves answers 0 (initial_world, [])
  = Some (Nat.iter 3 (dance_cycle faulty_robot example_moves) (initial_world, [])).
Proof.
  intros answers.
  assert (Hbefore : forall j, (j < 2)%nat -> declines (answers j) = false).
  { intros j Hj. destruct j as [| [| j]]; [reflexivity | reflexivity | lia]. }
  assert (Hstop : declines (answers 2%nat) = true) by reflexivity.
  split; [exact Hbefore |]. split; [exact Hstop |].
  apply (proj1 (dance_loop_stops_at_first_decline faulty_robot example_moves answers
                  2 5 (initial_world, []) Hbefore Hstop)).
  lia.
Defined.

Lemma dance_cycle_rows_aux (robot : Robot) (dance_moves : list DanceMove)
    (w : World) (table : list Row) :
  exists rows,
    snd (dance_cycle robot dance_moves (w, table)) = table ++ rows /\
    length rows = length dance_moves.
Proof.
  unfold dance_cycle.
  destruct (dance_fold_rows robot dance_moves (seq 0 (length dance_moves)) w table)
    as (rows & Hrows & Hfrom & _).
  exists rows. split; [exact Hrows |].
  apply (f_equal (@length Z)) in Hfrom.
  rewrite !length_map, length_seq in Hfrom. exact Hfrom.
Qed.

Lemma dance_cycles_rows (robot : Robot) (dance_moves : list DanceMove) (k : nat) :
  forall st,
    length (snd (Nat.iter k (dance_cycle robot dance_moves) st))
    = (length (snd st) + k * length dance_moves)%nat.
Proof.
  induction k as [| k IH]; intros st; [simpl; lia |].
  rewrite Nat.iter_succ.
  specialize (IH st).
  destruct (Nat.iter k (dance_cycle robot dance_moves) st) as [w table].
  cbn [snd] in IH.
  destruct (dance_cycle_rows_aux robot dance_moves w table) as (rows & Hrows & Hlen).
  rewrite Hrows, length_app, Hlen, IH. simpl. lia.
Qed.

Section MainProperties.

Variable num_get_int : string -> Extraction Z.
Variable num_get_double : string -> Extraction R.
Variable uninit : DanceMove.

Hypothesis num_get_int_hash :
  forall s value rest, num_get_int (String "#" s) <> Converted value rest.

Lemma read_config_moves (stale : DanceMove) (lines : list string) :
  fst (readDanceMovesFromConfig num_get_int num_get_double stale (Some lines))
  = match flat_map (record_of_line num_get_int num_get_double) lines with
    | [] => inl NoValidMoves
    | move :: moves => inr (move :: moves)
    end.
Proof.
  pose proof (read_lines_records num_get_int num_get_double num_get_int_hash
                stale lines [] []) as Hall.
  simpl in Hall. unfold readDanceMovesFromConfig.
  destruct (fold_left (read_line num_get_int num_get_double stale) lines ([], []))
    as [moves out].
  simpl in Hall. rewrite <- Hall. destruct moves; reflexivity.
Qed.

(** X19. [main] does not touch the robot without a usable configuration:
    with the wrong number of arguments, a failed connection, a file that
    cannot be opened, or a file in which no line is a complete record, it
    exits with code 1 before any motion attempt. *)
Theorem main_needs_configuration (argc : nat) (connection : option Robot)
    (file : option (list string)) (answers : nat -> ascii) (fuel : nat) :
  argc <> 3%nat \/ connection = None \/ file = None \/
  (exists lines,
     file = Some lines /\
     flat_map (record_of_line num_get_int num_get_double) lines = []) ->
  main num_get_int num_get_double uninit argc connection file answers fuel
  = Some (1%Z, initial_world, []).
Proof.
  intros Hcase. unfold main.
  destruct (Nat.eqb_spec argc 3) as [Hargc | Hargc]; [| reflexivity].
  cbn [negb].
  destruct connection as [robot |]; [| reflexivity].
  destruct Hcase as [Hbad | [Hbad | [-> | (lines & -> & Hnone)]]];
    [contradiction | discriminate | reflexivity |].
  rewrite read_config_moves, Hnone. reflexivity.
Qed.

(** X20. An exit code of 1 means no dance row was printed and at most
    the two attempts and one recovery of the initial positioning were
    made.  An exit code of 0 means the arguments, the connection and the
    configuration were good, the initial move to the first record did
    not return a negative value, and the user declined after some cycle
    [k], by which time [k + 1] full cycles of rows were printed. *)
Theorem main_exit_code (argc : nat) (connection : option Robot)
    (lines : list string) (answers : nat -> ascii) (fuel : nat)
    (code : Z) (w : World) (table : list Row) :
  main num_get_int num_get_double uninit argc connection (Some lines) answers fuel
  = Some (code, w, table) ->
  (code = 1%Z /\ table = [] /\
   (attempts_made w <= 2)%nat /\ (recoveries_made w <= 1)%nat) \/
  (code = 0%Z /\ argc = 3%nat /\
   exists robot first rest k,
     connection = Some robot /\
     flat_map (record_of_line num_get_int num_get_double) lines = first :: rest /\
     0 <= fst (moveJoints_default robot initial_world (move_joints first)
                 (move_time first)) /\
     (k < fuel)%nat /\
     declines (answers k) = true /\
     (forall j, (j < k)%nat -> declines (answers j) = false) /\
     length table = (S k * length (first :: rest))%nat).
Proof.
  unfold main. intros Hmain.
  destruct (Nat.eqb_spec argc 3) as [Hargc | Hargc]; cbn [negb] in Hmain.
  2: { injection Hmain as <- <- <-. left. simpl. repeat split; lia. }
  destruct connection as [robot |].
  2: { injection Hmain as <- <- <-. left. simpl. repeat split; lia. }
  rewrite read_config_moves in Hmain.
  destruct (flat_map (record_of_line num_get_int num_get_double) lines)
    as [| first rest] eqn:Hrecords.
  { injection Hmain as <- <- <-. left. simpl. repeat split; lia. }
  change (move_at (first :: rest) 0) with first in Hmain.
  pose proof (moveJoints_default_cases robot initial_world (move_joints first)
                (move_time first)) as Hcases.
  cbv zeta in Hcases.
  destruct (moveJoints_default robot initial_world (move_joints first) (move_time first))
    as [initial_move_time w0] eqn:Hmove.
  cbn [fst snd] in Hcases.
  assert (Hcount : (attempts_made w0 <= 2)%nat /\ (recoveries_made w0 <= 1)%nat).
  { simpl in Hcases.
    destruct Hcases as [(_ & _ & Ha & Hr)
                       | [(_ & _ & _ & Ha & Hr) | (_ & _ & _ & Ha & Hr)]];
      rewrite Ha, Hr; lia. }
  destruct (Rlt_dec initial_move_time 0) as [Hneg | Hpos].
  { injection Hmain as <- <- <-. left. split; [reflexivity |].
    split; [reflexivity | exact Hcount]. }
  destruct (dance_loop fuel robot (first :: rest) answers 0 (w0, []))
    as [[w1 table1] |] eqn:Hloop; [| discriminate].
  injection Hmain as <- <- <-. right.
  split; [reflexivity |]. split; [exact Hargc |].
  destruct (dance_loop_result _ _ _ _ _ _ _ Hloop) as (k & Hk & Hstop & Hbefore & Hfinal).
  exists robot, first, rest, k.
  split; [reflexivity |]. split; [reflexivity |].
  split; [rewrite Hmove; simpl; lra |]. split; [exact Hk |].
  split; [exact Hstop |]. split; [exact Hbefore |].
  pose proof (dance_cycles_rows robot (first :: rest) (S k) (w0, [])) as Hrows.
  rewrite <- Hfinal in Hrows. cbn [snd] in Hrows. rewrite Hrows. simpl. lia.
Qed.

End MainProperties.

Lemma example_config_records :
  exists move,
    flat_map (record_of_line decimal_int decimal_double) example_config = [move].
Proof. eexists. reflexivity. Qed.

Lemma main_needs_configuration_witness :
  (forall s value rest, decimal_int (String "#" s) <> Converted value rest) /\
  flat_map (record_of_line decimal_int decimal_double)
    ["# only a comment"; ""; "1 2 3"]%string = [] /\
  main decimal_int decimal_double stale_move 3 (Some steady_robot)
    (Some ["# only a comment"; ""; "1 2 3"]%string) (fun _ => "n"%char) 1
  = Some (1%Z, initial_world, []).
Proof.
  split; [exact decimal_int_hash |].
  assert (Hnone : flat_map (record_of_line decimal_int decimal_double)
                    ["# only a comment"; ""; "1 2 3"]%string = []) by reflexivity.
  split; [exact Hnone |].
  apply (main_needs_configuration decimal_int decimal_double stale_move
           decimal_int_hash).
  right. right. right. eexists. split; [reflexivity | exact Hnone].
Defined.

Lemma main_exit_code_witness :
  (forall s value rest, decimal_int (String "#" s) <> Converted value rest) /\
  main decimal_int decimal_double stale_move 3 (Some faulty_robot)
    (Some example_config) (fun _ => "n"%char) 1
  = Some (1%Z,
          snd (moveJoints_default faulty_robot initial_world
                 (move_joints (move_at
                    (flat_map (record_of_line decimal_int decimal_double) example_config) 0))
                 (move_time (move_at
                    (flat_map (record_of_line decimal_int decimal_double) example_config) 0))),
          []) /\
  (attempts_made
     (snd (moveJoints_default faulty_robot initial_world
             (move_joints (move_at
                (flat_map (record_of_line decimal_int decimal_double) example_config) 0))
             (move_time (move_at
                (flat_map (record_of_line decimal_int decimal_double) example_config) 0))))
   <= 2)%nat.
Proof.
  split; [exact decimal_int_hash |].
  set (moves := flat_map (record_of_line decimal_int decimal_double) example_config).
  assert (Hmain : main decimal_int decimal_double stale_move 3 (Some faulty_robot)
                    (Some example_config) (fun _ => "n"%char) 1
                  = Some (1%Z,
                          snd (moveJoints_default faulty_robot initial_world
                                 (move_joints (move_at moves 0))
                                 (move_time (move_at moves 0))),
                          [])).
  { unfold main. cbn [Nat.eqb negb].
    rewrite (read_config_moves decimal_int decimal_double decimal_int_hash).
    fold moves.
    destruct example_config_records as [move Hmoves].
    fold moves in Hmoves. rewrite Hmoves.
    change (move_at [move] 0) with move.
    destruct (moveJoints_default_cases faulty_robot initial_world (move_joints move)
                (move_time move)) as [(Hf & _) | [(_ & Hr & _) | (_ & _ & Hres & _)]].
    - exfalso. apply Hf. reflexivity.
    - exfalso. apply Hr. reflexivity.
    - destruct (moveJoints_default faulty_robot initial_world (move_joints move)
                  (move_time move)) as [r w0].
      cbn [fst snd] in *. subst r.
      destruct (Rlt_dec (-1) 0); [reflexivity | lra]. }
  split; [exact Hmain |].
  destruct (main_exit_code decimal_int decimal_double stale_move decimal_int_hash
              _ _ _ _ _ _ _ _ Hmain) as [(_ & _ & Hatt & _) | (Hcode & _)];
    [exact Hatt | discriminate].
Defined.

(** ** What the reader keeps and what it reports *)

Section ReaderReports.

Variable num_get_int : string -> Extraction Z.
Variable num_get_double : string -> Extraction R.

Hypothesis num_get_int_hash :
  forall s value rest, num_get_int (String "#" s) <> Converted value rest.

Lemma records_without_skipped (lines : list string) :
  flat_map (record_of_line num_get_int num_get_double)
    (filter (fun line => negb (skipped line)) lines)
  = flat_map (record_of_line num_get_int num_get_double) lines.
Proof.
  induction lines as [| line lines IH]; [reflexivity |].
  cbn [filter flat_map].
  destruct (skipped line) eqn:Hskip; cbn [negb].
  - unfold record_of_line at 2.
    rewrite (skipped_line_has_no_record num_get_int num_get_double num_get_int_hash
               line Hskip).
    exact IH.
  - cbn [flat_map]. rewrite IH. reflexivity.
Qed.

(** X21. The moves read depend only on the data lines: comment and
    empty lines can be added or removed, and whatever the fresh
    [DanceMove] happened to hold never shows up in the result.  Reading
    two files one after the other gives the two sequences in order. *)
Theorem reader_result_depends_on_records (stale1 stale2 : DanceMove)
    (lines more : list string) :
  fst (readDanceMovesFromConfig num_get_int num_get_double stale1 (Some lines))
  = fst (readDanceMovesFromConfig num_get_int num_get_double stale2
           (Some (filter (fun line => negb (skipped line)) lines))) /\
  fst (fold_left (read_line num_get_int num_get_double stale1) (lines ++ more)
         ([], []))
  = fst (fold_left (read_line num_get_int num_get_double stale1) lines ([], []))
    ++ fst (fold_left (read_line num_get_int num_get_double stale2) more ([], [])).
Proof.
  split.
  - rewrite !(read_config_moves num_get_int num_get_double num_get_int_hash).
    rewrite records_without_skipped. reflexivity.
  - rewrite !(read_lines_records num_get_int num_get_double num_get_int_hash).
    cbn [app]. apply flat_map_app.
Qed.

Lemma read_joints_failed_messages (line : string) (l : list nat) :
  forall s move cerr,
  exists move',
    fold_left (read_joint num_get_double line) l (mkStream s true, move, cerr)
    = (mkStream s true, move', cerr ++ map (fun j => ErrJoint j line) l).
Proof.
  induction l as [| i l IH]; intros s move cerr; cbn [fold_left map].
  - exists move. rewrite app_nil_r. reflexivity.
  - unfold read_joint at 2. unfold extract_double. rewrite extract_failed.
    cbn [failbit].
    match goal with
    | |- context [fold_left _ l (_, ?m, _)] =>
        destruct (IH s m (cerr ++ [ErrJoint i line])) as [move' ->]
    end.
    exists move'. rewrite <- app_assoc. reflexivity.
Qed.

Lemma read_joints_good (line : string) (n : nat) :
  forall start s rest move cerr,
    joints_rest num_get_double n s = Some rest ->
    exists move',
      fold_left (read_joint num_get_double line) (seq start n)
        (mkStream s false, move, cerr)
      = (mkStream rest false, move', cerr).
Proof.
  induction n as [| n IH]; intros start s rest move cerr Hrest;
    cbn [seq fold_left joints_rest] in *.
  - injection Hrest as <-. exists move. reflexivity.
  - destruct (field_double num_get_double s) as [[value r] |] eqn:Hfield;
      [| discriminate].
    rewrite (read_joint_good num_get_double line s r move cerr start value Hfield).
    apply IH. exact Hrest.
Qed.

(** X22. A data line whose index converts but whose joint [i] is the
    first value that does not adds no move and reports that joint, every
    later joint and the move time, in this order: one bad field makes all
    the fields after it fail as well. *)
Theorem bad_joint_reports_every_later_field (uninit : DanceMove)
    (dance_moves : list DanceMove) (out : list Message)
    (line after_index at_joint : string) (index : Z) (i : nat) :
  skipped line = false ->
  field_int num_get_int line = Some (index, after_index) ->
  (i < 7)%nat ->
  joints_rest num_get_double i after_index = Some at_joint ->
  field_double num_get_double at_joint = None ->
  read_line num_get_int num_get_double uninit (dance_moves, out) line
  = (dance_moves,
     (out ++ map (fun j => ErrJoint j line) (seq i (7 - i))) ++ [ErrMoveTime line]).
Proof.
  intros Hskip Hindex Hi Hgood Hbad.
  unfold read_line. unfold skipped in Hskip. rewrite Hskip.
  unfold extract_int.
  pose proof (extract_field num_get_int line (move_index uninit)) as Hx.
  unfold field_int in Hindex. rewrite Hindex in Hx. rewrite Hx. cbn [failbit].
  unfold Array7.indices, Array7.size.
  replace 7%nat with (i + (7 - i))%nat at 1 by lia.
  rewrite seq_app, fold_left_app. cbn [Nat.add].
  match goal with
  | |- context [fold_left _ (seq 0 i) (_, ?m, _)] =>
      destruct (read_joints_good line i 0 after_index at_joint m out Hgood)
        as [move1 ->]
  end.
  destruct (7 - i)%nat as [| rest] eqn:Hrest; [lia |].
  cbn [seq fold_left map].
  destruct (read_joint_bad num_get_double line at_joint move1 out i Hbad) as [move2 ->].
  destruct (read_joints_failed_messages line (seq (S i) rest) (skipws at_joint)
              move2 (out ++ [ErrJoint i line])) as [move3 ->].
  unfold extract_double. rewrite extract_failed. cbn [failbit].
  rewrite <- !app_assoc. reflexivity.
Qed.

End ReaderReports.

Lemma bad_joint_reports_every_later_field_witness :
  (forall s value rest, decimal_int (String "#" s) <> Converted value rest) /\
  skipped "1 0 0 0 x 0 0 0 2" = false /\
  field_int decimal_int "1 0 0 0 x 0 0 0 2" = Some (1%Z, " 0 0 0 x 0 0 0 2"%string) /\
  (3 < 7)%nat /\
  field_double decimal_double " x 0 0 0 2" = None /\
  read_line decimal_int decimal_double stale_move ([], []) "1 0 0 0 x 0 0 0 2"
  = ([],
     [ErrJoint 3 "1 0 0 0 x 0 0 0 2"; ErrJoint 4 "1 0 0 0 x 0 0 0 2";
      ErrJoint 5 "1 0 0 0 x 0 0 0 2"; ErrJoint 6 "1 0 0 0 x 0 0 0 2";
      ErrMoveTime "1 0 0 0 x 0 0 0 2"]).
Proof.
  split; [exact decimal_int_hash |].
  split; [reflexivity |]. split; [reflexivity |]. split; [lia |].
  split; [reflexivity |].
  apply (bad_joint_reports_every_later_field decimal_int decimal_double stale_move
           [] [] "1 0 0 0 x 0 0 0 2" " 0 0 0 x 0 0 0 2" " x 0 0 0 2" 1 3);
    (reflexivity || lia).
Defined.

Lemma reader_result_depends_on_records_witness :
  (forall s value rest, decimal_int (String "#" s) <> Converted value rest) /\
  fst (readDanceMovesFromConfig decimal_int decimal_double stale_move
         (Some example_config))
  = fst (readDanceMovesFromConfig decimal_int decimal_double
           (mkDanceMove 0 Array7.zeros 0)
           (Some ["1 0 0 0 x 0 0 0 2"; "2 1 0 0 0 0 0 0 3.5"]%string)).
Proof.
  split; [exact decimal_int_hash |].
  apply (proj1 (reader_result_depends_on_records decimal_int decimal_double
                  decimal_int_hash stale_move (mkDanceMove 0 Array7.zeros 0)
                  example_config [])).
Defined.

(** ** Where binary64 rounding shows *)

Module Binary64Facts.

Import PrimFloat Binary64.

(** One step below 1 the binary64 profile is [1 + 2^-50], with either
    power. *)
Lemma just_below_the_end :
  quinticPath pow_once (1 - 0x1p-26)%float 1%float = (1 + 0x1p-50)%float /\
  quinticPath pow_repeat (1 - 0x1p-26)%float 1%float = (1 + 0x1p-50)%float /\
  quinticPath pow_once 1%float 1%float = 1%float.
Proof. repeat split; vm_compute; reflexivity. Qed.

Lemma mirror_off_by_one_ulp :
  (quinticPath pow_once 0x1p-11 1 + quinticPath pow_once (1 - 0x1p-11) 1)%float
  = (1 + 0x1p-52)%float /\
  (quinticPath pow_repeat 0x1p-11 1 + quinticPath pow_repeat (1 - 0x1p-11) 1)%float
  = (1 + 0x1p-52)%float.
Proof. split; vm_compute; reflexivity. Qed.



End Binary64Facts.
